(** * Component registry of the bots-node-sdk

    A shallow embedding of [dist/modules/component/registry.js]: the
    capability test [isComponent], the constructor wrapper [makeCtor],
    [fullPath] and the methods of the class [ComponentRegistry], followed by
    the properties of the registry that are established on them.

    The JavaScript the registry runs on is modelled as follows.
    - Values are primitives or references into a store of objects ([Heap]);
      objects are mutable and shared through their references.
    - A function object is described by what the registry can observe of it:
      its [prototype] property, the completion of a call without arguments
      and the completion of [new f()].  User code is taken to have no other
      effect on the store.
    - [ComponentRegistry] instances live in a store of their own; a registry
      is named by its index there, as a JavaScript object is by its
      reference.
    - node's [path], [fs], [require] and [Array.prototype.sort] are an
      interface ([Node]) the development is parameterised by.
    - Evaluation either completes, throws, or (for the recursive directory
      scan, which is bounded by a call depth) runs out of depth. *)

From Stdlib Require Import String Ascii ZArith List Permutation Lia.
From stdpp Require Import base numbers list strings pretty.
Import ListNotations.
Local Open Scope string_scope.
Local Open Scope list_scope.

(** ** Values and the object store *)

Abbreviation loc := nat.

Inductive value :=
| VUndefined
| VNull
| VBool (b : bool)
| VNum (n : Z)      (* the integers among the numbers *)
| VStr (s : string)
| VRef (l : loc).

#[global] Instance value_eq_dec : EqDecision value.
Proof. solve_decision. Defined.

Inductive exn :=
| TypeError (msg : string)
| ENOENT (path : string)
| Thrown (v : value).

(** The completion of evaluating user code: a call or a module load. *)
Inductive completion :=
| Returns (v : value)
| Throws (e : exn).

(** The completion of [new f()]: a fresh instance with the given own fields,
    or an exception. *)
Inductive construction :=
| Constructs (fields : list (string * value))
| NewThrows (e : exn).

Record Func := {
  fn_prototype : value;      (* f.prototype; undefined for arrow functions *)
  fn_call : completion;      (* f() *)
  fn_new : construction      (* new f() *)
}.

Record JSObject := {
  own : list (string * value);        (* own enumerable properties, in order *)
  hidden : list (string * value);     (* read but not enumerated: own non-enumerable
                                         properties and those of the prototype chain *)
  callable : option Func              (* Some for function objects *)
}.

Abbreviation Heap := (list JSObject).

(** Pure evaluation of an expression: a value or an exception. *)
Inductive res (A : Type) :=
| Val (a : A)
| Exn (e : exn).
Arguments Val {A} a.
Arguments Exn {A} e.

Definition res_bind {A B} (r : res A) (k : A -> res B) : res B :=
  match r with
  | Val a => k a
  | Exn e => Exn e
  end.

Declare Scope res_scope.
Delimit Scope res_scope with res.
Notation "'do' x <- r ; k" := (res_bind r (fun x => k))
  (at level 20, x name, r at level 100, k at level 200, only parsing) : res_scope.

Fixpoint assoc {A} (k : string) (l : list (string * A)) : option A :=
  match l with
  | [] => None
  | (k', a) :: l' => if String.eqb k k' then Some a else assoc k l'
  end.

Definition func_at (h : Heap) (v : value) : option Func :=
  match v with
  | VRef l => match h !! l with Some o => callable o | None => None end
  | _ => None
  end.

(** [typeof v] *)
Definition typeof (h : Heap) (v : value) : string :=
  match v with
  | VUndefined => "undefined"
  | VNull => "object"
  | VBool _ => "boolean"
  | VNum _ => "number"
  | VStr _ => "string"
  | VRef _ => match func_at h v with Some _ => "function" | None => "object" end
  end.

(** Modelled from the spec: [isType] of [common/definitions], which is not
    among the sources.  The capability test of the spec asks for a
    "constructible type"; a value is one when it is a function. *)
Definition isType (h : Heap) (v : value) : bool :=
  String.eqb (typeof h v) "function".

(** [v.k]: a property read.  Reading a property of [undefined] or [null]
    throws; the other primitives have none of the properties the registry
    asks for.  A reference that points outside the store, which JavaScript
    does not have, reads as an object without properties. *)
Definition get (h : Heap) (v : value) (k : string) : res value :=
  match v with
  | VUndefined => Exn (TypeError (String.append "Cannot read property of undefined: " k))
  | VNull => Exn (TypeError (String.append "Cannot read property of null: " k))
  | VRef l =>
      match h !! l with
      | Some o =>
          match assoc k (own o) with
          | Some x => Val x
          | None =>
              match callable o with
              | Some f =>
                  if String.eqb k "prototype" then Val (fn_prototype f)
                  else Val (default VUndefined (assoc k (hidden o)))
              | None => Val (default VUndefined (assoc k (hidden o)))
              end
          end
      | None => Val VUndefined
      end
  | _ => Val VUndefined
  end.

(** [v.k()]: a method call without arguments. *)
Definition call_method (h : Heap) (v : value) (k : string) : res value :=
  (do m <- get h v k;
   match func_at h m with
   | Some f => match fn_call f with Returns x => Val x | Throws e => Exn e end
   | None => Exn (TypeError (String.append k " is not a function"))
   end)%res.

Fixpoint chars (s : string) : list value :=
  match s with
  | EmptyString => []
  | String c s' => VStr (String c EmptyString) :: chars s'
  end.

(** [Object.values(v)] *)
Definition Object_values (h : Heap) (v : value) : res (list value) :=
  match v with
  | VUndefined | VNull => Exn (TypeError "Cannot convert undefined or null to object")
  | VStr s => Val (chars s)
  | VRef l => Val (match h !! l with Some o => map snd (own o) | None => [] end)
  | _ => Val []
  end.

(** The constructor [new] is applied to: a type, or the function
    [LegacyComponentWrapper] closed over the object it wraps. *)
Inductive ctor :=
| CtorType (type : value)
| LegacyComponentWrapper (type : value).

Definition proto_props (h : Heap) (p : value) : list (string * value) :=
  match p with
  | VRef l => match h !! l with Some o => own o ++ hidden o | None => [] end
  | _ => []
  end.

(** [new c()].  An instance of a type is a fresh object that sees the
    properties of the type's prototype.  [LegacyComponentWrapper] returns the
    wrapped value, so [new] yields that very object when it is one, and the
    fresh, empty [this] otherwise. *)
Definition new_ (c : ctor) (h : Heap) : res (value * Heap) :=
  match c with
  | CtorType type =>
      match func_at h type with
      | Some f =>
          match fn_new f with
          | Constructs fields =>
              Val (VRef (length h),
                   h ++ [{| own := fields;
                            hidden := proto_props h (fn_prototype f);
                            callable := None |}])
          | NewThrows e => Exn e
          end
      | None => Exn (TypeError "not a constructor")
      end
  | LegacyComponentWrapper type =>
      match type with
      | VRef _ => Val (type, h)
      | _ => Val (VRef (length h),
                  h ++ [{| own := []; hidden := []; callable := None |}])
      end
  end.

Fixpoint indexed_chars (i : nat) (s : string) : list (string * value) :=
  match s with
  | EmptyString => []
  | String c s' => (pretty i, VStr (String c EmptyString)) :: indexed_chars (S i) s'
  end.

(** The own enumerable properties [Object.assign] copies from a source. *)
Definition own_enumerable (h : Heap) (src : value) : list (string * value) :=
  match src with
  | VRef l => match h !! l with Some o => own o | None => [] end
  | VStr s => indexed_chars 0 s
  | _ => []
  end.

(** [Object.assign({}, src)] *)
Definition Object_assign_fresh (src : value) (h : Heap) : value * Heap :=
  (VRef (length h),
   h ++ [{| own := own_enumerable h src; hidden := []; callable := None |}]).

(** Truthiness of a value, as [!!v]. *)
Definition truthy (v : value) : bool :=
  match v with
  | VUndefined | VNull => false
  | VBool b => b
  | VNum n => negb (n =? 0)%Z
  | VStr s => negb (String.eqb s "")
  | VRef _ => true
  end.

(** [String(v)], the property key [o[v]] reads and writes.  An object is
    taken to have the [toString] of [Object.prototype]. *)
Definition to_key (v : value) : string :=
  match v with
  | VUndefined => "undefined"
  | VNull => "null"
  | VBool true => "true"
  | VBool false => "false"
  | VNum n => pretty n
  | VStr s => s
  | VRef _ => "[object Object]"
  end.

(** [o[k] = v] on the own properties of a plain object: the property is
    replaced where it is, or added at the end.  (The place JavaScript gives
    to integer-like keys in the enumeration is not modelled.) *)
Fixpoint set_own (k : string) (v : value) (props : list (string * value))
    : list (string * value) :=
  match props with
  | [] => [(k, v)]
  | (k', v') :: props' =>
      if String.eqb k k' then (k', v) :: props' else (k', v') :: set_own k v props'
  end.

(** ** Strings and arrays *)

(** [s.indexOf(sub)] *)
Definition indexOf (s sub : string) : Z :=
  match String.index 0 sub s with
  | Some n => Z.of_nat n
  | None => (-1)%Z
  end.

(** [a.indexOf(x)] on an array of strings *)
Fixpoint array_indexOf_from (i : Z) (a : list string) (x : string) : Z :=
  match a with
  | [] => (-1)%Z
  | y :: a' => if String.eqb y x then i else array_indexOf_from (i + 1)%Z a' x
  end.

Definition array_indexOf (a : list string) (x : string) : Z :=
  array_indexOf_from 0%Z a x.

(** A number used as a condition. *)
Definition truthy_num (n : Z) : bool := negb (n =? 0)%Z.

(** ** The JavaScript [Map] *)

Section JSMap.
Context {V : Type}.

(** Entries in insertion order; keys are compared as [Map] does. *)
Definition JSMap := list (value * V).

Fixpoint map_get (k : value) (m : JSMap) : option V :=
  match m with
  | [] => None
  | (k', v) :: m' => if decide (k' = k) then Some v else map_get k m'
  end.

Definition map_has (k : value) (m : JSMap) : bool :=
  match map_get k m with Some _ => true | None => false end.

Fixpoint map_set (k : value) (v : V) (m : JSMap) : JSMap :=
  match m with
  | [] => [(k, v)]
  | (k', v') :: m' =>
      if decide (k' = k) then (k', v) :: m' else (k', v') :: map_set k v m'
  end.

Definition map_size (m : JSMap) : Z := Z.of_nat (length m).

Definition map_values (m : JSMap) : list V := map snd m.
Definition map_keys (m : JSMap) : list value := map fst m.
End JSMap.
Arguments JSMap V : clear implicits.

(** ** Registries, the log and the world *)

Abbreviation rid := nat.

Record RegistryNode := {
  _parent : option rid;
  _collections : JSMap rid;
  _components : JSMap value
}.

(** What the logger was given.  The two template strings are kept apart
    from their arguments. *)
Inductive LogEntry :=
| Warn_duplicate_component (name : value) (type : value)
| Error_invalid_component_directory (baseDir : string)
| Error_exception (e : exn)
| Error_invalid_registry_requested (collection : value).

Record World := {
  objs : Heap;
  regs : list RegistryNode;
  logged : list LogEntry
}.

Definition with_objs (h : Heap) (w : World) : World :=
  {| objs := h; regs := regs w; logged := logged w |}.
Definition with_regs (r : list RegistryNode) (w : World) : World :=
  {| objs := objs w; regs := r; logged := logged w |}.
Definition with_logged (l : list LogEntry) (w : World) : World :=
  {| objs := objs w; regs := regs w; logged := l |}.

(** The outcome of running a method in a world.  An exception leaves the
    world as it was when it was thrown. *)
Inductive outcome (A : Type) :=
| Ok (a : A) (w : World)
| Throw (e : exn) (w : World)
| OutOfDepth.
Arguments Ok {A} a w.
Arguments Throw {A} e w.
Arguments OutOfDepth {A}.

Definition M (A : Type) := World -> outcome A.

Definition ret {A} (a : A) : M A := fun w => Ok a w.

Definition bind {A B} (m : M A) (k : A -> M B) : M B :=
  fun w =>
    match m w with
    | Ok a w' => k a w'
    | Throw e w' => Throw e w'
    | OutOfDepth => OutOfDepth
    end.

Declare Scope M_scope.
Delimit Scope M_scope with M.
Bind Scope M_scope with M.
Notation "'do' x <- m ; k" := (bind m (fun x => k))
  (at level 20, x name, m at level 100, k at level 200, only parsing) : M_scope.
Notation "'do' ' ( x , y ) <- m ; k" := (bind m (fun '(x, y) => k))
  (at level 20, x name, y name, m at level 100, k at level 200, only parsing) : M_scope.
Notation "'run' m ; k" := (bind m (fun _ => k))
  (at level 20, m at level 100, k at level 200, only parsing) : M_scope.

Definition throw {A} (e : exn) : M A := fun w => Throw e w.

(** A pure expression evaluated against the object store. *)
Definition eval {A} (f : Heap -> res A) : M A :=
  fun w => match f (objs w) with Val a => Ok a w | Exn e => Throw e w end.

(** An expression that may allocate in the object store. *)
Definition alloc {A} (f : Heap -> res (A * Heap)) : M A :=
  fun w =>
    match f (objs w) with
    | Val (a, h) => Ok a (with_objs h w)
    | Exn e => Throw e w
    end.

(** [try { body } catch (e) { handler }] *)
Definition try_catch {A} (body : M A) (handler : exn -> M A) : M A :=
  fun w =>
    match body w with
    | Ok a w' => Ok a w'
    | Throw e w' => handler e w'
    | OutOfDepth => OutOfDepth
    end.

Definition log (entry : LogEntry) : M unit :=
  fun w => Ok tt (with_logged (logged w ++ [entry]) w).

(** [array.forEach(f)] *)
Fixpoint forEach {A} (f : A -> M unit) (l : list A) : M unit :=
  match l with
  | [] => ret tt
  | a :: l' => (run f a; forEach f l')%M
  end.

(** [array.map(f)] *)
Fixpoint mapM {A B} (f : A -> M B) (l : list A) : M (list B) :=
  match l with
  | [] => ret []
  | a :: l' => (do b <- f a; do bs <- mapM f l'; ret (b :: bs))%M
  end.

(** [array.filter(p)] for a predicate that may throw *)
Fixpoint filter_res {A} (p : A -> res bool) (l : list A) : res (list A) :=
  match l with
  | [] => Val []
  | a :: l' =>
      (do keep <- p a;
       do rest <- filter_res p l';
       Val (if (keep : bool) then a :: rest else rest))%res
  end.

(** ** node: [path], [fs], [require], [process] and [Array.prototype.sort] *)

Record Stats := {
  isDirectory : bool;
  isFile : bool
}.

Record Node := {
  path_join : string -> string -> string;
  path_resolve : string -> string;
  path_basename : string -> string;
  path_extname : string -> string;
  fs_existsSync : string -> bool;
  fs_statSync : string -> res Stats;
  fs_readdirSync : string -> res (list string);
  require : string -> completion;
  process_cwd : string;
  (* [a.sort(cmp)], whose comparator may throw *)
  Array_sort : (string -> string -> res Z) -> list string -> res (list string)
}.

(** * registry.js *)

Module registry.

(** [isComponent(ref)] *)
Definition isComponent (h : Heap) (ref : value) : res bool :=
  (do class_usage <-
     (if isType h ref then
        do p <- get h ref "prototype";
        do m <- get h p "metadata";
        if isType h m then
          do p' <- get h ref "prototype";
          do i <- get h p' "invoke";
          Val (isType h i)
        else Val false
      else Val false);
   if (class_usage : bool) then Val true
   else
     if String.eqb (typeof h ref) "object" then
       do m <- get h ref "metadata";
       if isType h m then
         do i <- get h ref "invoke";
         Val (isType h i)
       else Val false
     else Val false)%res.

(** [makeCtor(type)] *)
Definition makeCtor (h : Heap) (type : value) : ctor :=
  if isType h type then CtorType type else LegacyComponentWrapper type.


Section functions.
Variable node : Node.

(** [fullPath(cwd, dirname)] *)
Definition fullPath (cwd dirname : string) : string :=
  if truthy_num (Z.lnot (indexOf dirname cwd)) then dirname
  else path_join node cwd dirname.
End functions.

(** ** class ComponentRegistry *)

Module ComponentRegistry.

Section methods.
Variable node : Node.

Local Open Scope M_scope.

(** Reading the fields of [this]. *)
Definition fields (this : rid) : M RegistryNode :=
  fun w =>
    match regs w !! this with
    | Some n => Ok n w
    | None => Throw (TypeError "not a ComponentRegistry") w
    end.

(** [this._components.set(k, v)] and [this._collections.set(k, v)] *)
Definition _components_set (this : rid) (k v : value) : M unit :=
  fun w =>
    Ok tt (with_regs
             (alter (fun n => {| _parent := _parent n;
                                 _collections := _collections n;
                                 _components := map_set k v (_components n) |})
                    this (regs w)) w).

Definition _collections_set (this : rid) (k : value) (v : rid) : M unit :=
  fun w =>
    Ok tt (with_regs
             (alter (fun n => {| _parent := _parent n;
                                 _collections := map_set k v (_collections n);
                                 _components := _components n |})
                    this (regs w)) w).

(** [constructor(_parent)] *)
Definition constructor (_parent : option rid) : M rid :=
  fun w =>
    Ok (length (regs w))
       (with_regs (regs w ++ [{| _parent := _parent;
                                 _collections := [];
                                 _components := [] |}]) w).

(** [isComponent(name)] *)
Definition isComponent (this : rid) (name : value) : M bool :=
  do n <- fields this;
  ret (map_has name (_components n)).

(** [isCollection(name)] *)
Definition isCollection (this : rid) (name : value) : M bool :=
  do n <- fields this;
  ret (map_has name (_collections n)).

(** [getComponents()] *)
Definition getComponents (this : rid) : M (JSMap value) :=
  do n <- fields this;
  ret (_components n).

(** [getComponent(name)] *)
Definition getComponent (this : rid) (name : value) : M value :=
  do n <- fields this;
  ret (default VUndefined (map_get name (_components n))).

(** [getRegistry(collection)]: a registry, or [None] for [undefined] *)
Definition getRegistry (this : rid) (collection : value) : M (option rid) :=
  if truthy collection then
    do n <- fields this;
    ret (map_get collection (_collections n))
  else ret (Some this).

(** [getCollectionNames()] *)
Definition getCollectionNames (this : rid) : M (list value) :=
  do n <- fields this;
  ret (map_keys (_collections n)).

(** [get components()], the accessor of the legacy conversation shell *)
Definition components (this : rid) : M value :=
  do map_ <- getComponents this;
  alloc (fun h =>
    let c := fold_left (fun c entry => set_own (to_key (fst entry)) (snd entry) c)
                       map_ [] in
    Val (VRef (length h), h ++ [{| own := c; hidden := []; callable := None |}])).

(** [isValid()] *)
Definition isValid (this : rid) : M bool :=
  do n <- fields this;
  let size_or :=
    if truthy_num (map_size (_components n)) then map_size (_components n)
    else map_size (_collections n) in
  ret (size_or >? 0)%Z.

(** [__componentFactory(mod)] *)
Definition __componentFactory (this : rid) (mod_ : value) : M value :=
  alloc (fun h => let ctor := makeCtor h mod_ in new_ ctor h).

(** [__register(component)].  The warning names the rejected type by
    [component['constructor'].name], which is read when the message is made
    and throws for a component without a constructor.  The log entry keeps
    the two values of the message as they are. *)
Definition __register (this : rid) (component : value) : M unit :=
  do meta <- eval (fun h => call_method h component "metadata");
  do name <- eval (fun h => get h meta "name");
  do dup <- isComponent this name;
  if (dup : bool) then
    do ctor <- eval (fun h => get h component "constructor");
    do type <- eval (fun h => get h ctor "name");
    log (Warn_duplicate_component name type)
  else _components_set this name component.

(** [merge(registry, recursive)].  The loop runs over the components
    [registry] has when [merge] is called; a [Map] would also visit an
    entry added to it during the loop, which [__register] only does to
    [registry] itself for a component that no longer reports the name it
    is kept under. *)
Definition merge (this : rid) (registry : rid) (recursive : bool) : M rid :=
  do components <- getComponents registry;
  run forEach (fun component =>
         run __register this component;
         if recursive then
           do n <- fields this;
           forEach (fun collection => __register collection component)
                   (map_values (_collections n))
         else ret tt)
      (map_values components);
  ret this.

(** [getMetadata(collection)] *)
Definition getMetadata (this : rid) (collection : value) : M (list value) :=
  do registry <- getRegistry this collection;
  match registry with
  | Some r =>
      do components <- getComponents r;
      mapM (fun component =>
              do m <- eval (fun h => call_method h component "metadata");
              (* push a copy of the metadata *)
              alloc (fun h => Val (Object_assign_fresh m h)))
           (map_values components)
  | None =>
      run log (Error_invalid_registry_requested collection);
      ret []
  end.

(** [__resolveComponents(filePath)] *)
Definition __resolveComponents (this : rid) (filePath : string) : M (list value) :=
  try_catch
    (do mod_ <- eval (fun _ => match require node filePath with
                              | Returns v => Val v
                              | Throws e => Exn e
                              end);
     do direct <- eval (fun h => registry.isComponent h mod_);
     if (direct : bool) then ret [mod_]
     else
       do values <- eval (fun h => Object_values h mod_);
       eval (fun h => filter_res (registry.isComponent h) values))
    (fun e =>
       run log (Error_exception e);
       ret []).

(** The recursive part of the class.  [depth] bounds the depth of the
    calls among these five methods; a scan that needs more ends in
    [OutOfDepth].  The default arguments of [assemble] ([COMPONENT_DIR],
    [process.cwd()]) are left to the caller. *)
Fixpoint __buildFromFs (depth : nat) (this : rid) (baseDir : string)
    (withCollections : bool) {struct depth} : M rid :=
  match depth with
  | O => fun _ => OutOfDepth
  | S depth =>
      let dir := path_resolve node baseDir in
      run (if fs_existsSync node dir then
             do components <- __scanDir depth this dir withCollections;
             forEach (fun component => __register this component) components
           else log (Error_invalid_component_directory baseDir));
      ret this
  end

with __scanDir (depth : nat) (this : rid) (dir : string)
    (withCollections : bool) {struct depth} : M (list value) :=
  match depth with
  | O => fun _ => OutOfDepth
  | S depth =>
      do names <- eval (fun _ => fs_readdirSync node dir);
      let names :=
        List.filter (fun name =>
                       truthy_num (Z.lnot (array_indexOf [""; ".js"]
                                                         (path_extname node name))))
                    names in
      let files := map (fun name => path_join node dir name) names in
      do sorted <- eval (fun _ =>
        Array_sort node
          (fun a b => (do st <- fs_statSync node a;
                       Val (if isDirectory st then 1 else 0)%Z)%res)
          files);
      do results <- mapM (fun file => __digestPath depth this file withCollections)
                         sorted;
      ret (concat results)
  end

with __digestPath (depth : nat) (this : rid) (filePath : string)
    (withCollections : bool) {struct depth} : M (list value) :=
  match depth with
  | O => fun _ => OutOfDepth
  | S depth =>
      let filePath :=
        if fs_existsSync node filePath then filePath
        else String.append filePath ".js" in
      do stat <- eval (fun _ => fs_statSync node filePath);
      if isDirectory stat && withCollections then
        run _addCollection depth this filePath;
        ret []
      else if isDirectory stat then
        __scanDir depth this filePath false
      else if isFile stat then
        do refs <- __resolveComponents this filePath;
        mapM (fun c => __componentFactory this c) refs
      else ret []
  end

with _addCollection (depth : nat) (this : rid) (subdir : string)
    {struct depth} : M unit :=
  match depth with
  | O => fun _ => OutOfDepth
  | S depth =>
      do child <- assemble depth (Some this) subdir (process_cwd node);
      _collections_set this (VStr (path_basename node subdir)) child
  end

with assemble (depth : nat) (parent : option rid) (componentDir cwd : string)
    {struct depth} : M rid :=
  match depth with
  | O => fun _ => OutOfDepth
  | S depth =>
      let componentDir := fullPath node cwd componentDir in
      do this <- constructor parent;
      __buildFromFs depth this componentDir (negb (bool_decide (is_Some parent)))
  end.

(** [__buildFromItems(list, baseDir)] *)
Definition __buildFromItems (depth : nat) (this : rid) (list_ : list value)
    (baseDir : string) : M rid :=
  do results <- mapM (fun item =>
    do direct <- eval (fun h => registry.isComponent h item);
    if (direct : bool) then
      do c <- __componentFactory this item;
      ret (Some [c])
    else
      do ty <- eval (fun h => Val (typeof h item));
      if String.eqb ty "object" then
        do values <- eval (fun h => Object_values h item);
        do refs <- eval (fun h => filter_res (registry.isComponent h) values);
        do cs <- mapM (fun ref => __componentFactory this ref) refs;
        ret (Some cs)
      else if String.eqb ty "string" then
        match item with
        | VStr item =>
            do cs <- __digestPath depth this (fullPath node baseDir item) false;
            ret (Some cs)
        | _ => ret None
        end
      else ret None) list_;
  let results :=
    List.filter (fun item => match item with
                             | Some l => truthy_num (Z.of_nat (length l))
                             | None => false
                             end) results in
  run forEach (fun component => __register this component)
              (concat (omap id results));
  ret this.

(** [create(components, cwd)], the default [process.cwd()] left to the
    caller *)
Definition create (depth : nat) (components : list value) (cwd : string) : M rid :=
  do this <- constructor None;
  __buildFromItems depth this components cwd.

End methods.

End ComponentRegistry.

End registry.

Import registry.

(** * A sample installation

    A small object store, file system and node interface on which the
    methods can be run.  The path functions are POSIX ones without
    normalisation; the sort is an insertion sort. *)

Module Sample.

Definition method (result : completion) : JSObject :=
  {| own := []; hidden := [];
     callable := Some {| fn_prototype := VUndefined;
                         fn_call := result;
                         fn_new := NewThrows (TypeError "not a constructor") |} |}.

Definition class (name : string) (prototype : loc) : JSObject :=
  {| own := []; hidden := [("name", VStr name)];
     callable := Some {| fn_prototype := VRef prototype;
                         fn_call := Throws (TypeError "Class constructor cannot be invoked without 'new'");
                         fn_new := Constructs [] |} |}.

Definition object (props : list (string * value)) : JSObject :=
  {| own := props; hidden := []; callable := None |}.

Definition prototype (methods : list (string * value)) : JSObject :=
  {| own := []; hidden := methods; callable := None |}.

(** [function name() {}], to be called with [new]. *)
Definition constructor_function (name : string) (prototype : loc) : JSObject :=
  {| own := []; hidden := [("name", VStr name)];
     callable := Some {| fn_prototype := VRef prototype;
                         fn_call := Returns VUndefined;
                         fn_new := Constructs [] |} |}.

(** An object made by [new] and given its properties afterwards. *)
Definition made_by (constructor : loc) (props : list (string * value)) : JSObject :=
  {| own := props; hidden := [("constructor", VRef constructor)]; callable := None |}.

(** The store: a component class and an instance of it, legacy
    components, an arrow function, three module export objects, the
    constructor of the legacy components, and a component that has no
    constructor, as [Object.create(null)] makes them. *)
Definition heap : Heap :=
  [ (* 0 *) object [("name", VStr "hello.world"); ("properties", VRef 1)];
    (* 1 *) object [("human", VStr "string")];
    (* 2 *) method (Returns (VRef 0));            (* HelloWorld#metadata *)
    (* 3 *) method (Returns VUndefined);          (* invoke *)
    (* 4 *) prototype [("metadata", VRef 2); ("invoke", VRef 3); ("constructor", VRef 5)];
    (* 5 *) class "HelloWorld" 4;                 (* class HelloWorld *)
    (* 6 *) object [("name", VStr "legacy")];
    (* 7 *) method (Returns (VRef 6));
    (* 8 *) made_by 18 [("metadata", VRef 7); ("invoke", VRef 3)];   (* legacy component *)
    (* 9 *) method (Returns (VNum 1));            (* an arrow function *)
    (* 10 *) object [("name", VStr "hello.world"); ("version", VNum 2)];
    (* 11 *) method (Returns (VRef 10));
    (* 12 *) made_by 18 [("metadata", VRef 11); ("invoke", VRef 3)]; (* a second hello.world *)
    (* 13 *) object [("a", VRef 5); ("b", VRef 8); ("c", VStr "not a component")];
    (* 14 *) object [("a", VRef 5); ("b", VNull)];
    (* 15 *) object [("a", VRef 5); ("helper", VRef 9)];
    (* 16 *) prototype [("metadata", VRef 2); ("invoke", VRef 3);
                        ("constructor", VRef 5)];                (* new HelloWorld() *)
    (* 17 *) prototype [("constructor", VRef 18)];
    (* 18 *) constructor_function "Legacy" 17;    (* function Legacy() {} *)
    (* 19 *) object [("metadata", VRef 11); ("invoke", VRef 3)] ]. (* no constructor *)

Definition HelloWorld : value := VRef 5.
Definition legacy : value := VRef 8.
Definition hello2 : value := VRef 12.
Definition arrow : value := VRef 9.
Definition hello_instance : value := VRef 16.
Definition bare : value := VRef 19.

Inductive entry :=
| Dir (names : list string)
| File (load : completion).

Definition files : list (string * entry) :=
  [ ("/srv/components", Dir ["hello.js"; "sub1"; "notes.txt"; "sub2"]);
    ("/srv/components/hello.js", File (Returns HelloWorld));
    ("/srv/components/notes.txt", File (Throws (Thrown (VStr "SyntaxError"))));
    ("/srv/components/sub1", Dir ["deep"; "legacy.js"]);
    ("/srv/components/sub1/legacy.js", File (Returns legacy));
    ("/srv/components/sub1/deep", Dir ["multi.js"]);
    ("/srv/components/sub1/deep/multi.js", File (Returns (VRef 13)));
    ("/srv/components/sub2", Dir []);
    ("/srv/flaky", Dir ["broken.js"; "hello.js"]);
    ("/srv/flaky/broken.js", File (Throws (Thrown (VStr "boom"))));
    ("/srv/flaky/hello.js", File (Returns HelloWorld));
    ("/srv/mixed", Dir ["partial.js"; "helper.js"; "multi.js"]);
    ("/srv/mixed/partial.js", File (Returns (VRef 14)));
    ("/srv/mixed/helper.js", File (Returns (VRef 15)));
    ("/srv/mixed/multi.js", File (Returns (VRef 13)));
    ("/app/vendor/app/hello.js", File (Returns HelloWorld)) ].

Definition cwd : string := "/srv".

Definition join (a b : string) : string :=
  String.append a (String.append "/" b).

Definition resolve (p : string) : string :=
  match p with
  | String "/" _ => p
  | _ => join cwd p
  end.

(** The part of [s] after the last [sep], and whether [sep] occurs. *)
Fixpoint after_last (sep : ascii) (s : string) : option string :=
  match s with
  | EmptyString => None
  | String c s' =>
      match after_last sep s' with
      | Some t => Some t
      | None => if Ascii.eqb c sep then Some s' else None
      end
  end.

Definition basename (p : string) : string :=
  default p (after_last "/" p).

Definition extname (p : string) : string :=
  match basename p with
  | String _ rest =>
      match after_last "." rest with
      | Some e => String "." e
      | None => ""
      end
  | EmptyString => ""
  end.

Definition lookup (p : string) : option entry := assoc (resolve p) files.

Definition statSync (p : string) : res Stats :=
  match lookup p with
  | Some (Dir _) => Val {| isDirectory := true; isFile := false |}
  | Some (File _) => Val {| isDirectory := false; isFile := true |}
  | None => Exn (ENOENT p)
  end.

Definition readdirSync (p : string) : res (list string) :=
  match lookup p with
  | Some (Dir names) => Val names
  | _ => Exn (ENOENT p)
  end.

Definition load (p : string) : completion :=
  match lookup p with
  | Some (File c) => c
  | _ => Throws (Thrown (VStr "Cannot find module"))
  end.

Fixpoint insert (cmp : string -> string -> res Z) (x : string)
    (sorted : list string) : res (list string) :=
  match sorted with
  | [] => Val [x]
  | y :: rest =>
      (do c <- cmp x y;
       if (c >? 0)%Z then
         do rest' <- insert cmp x rest;
         Val (y :: rest')
       else Val (x :: sorted))%res
  end.

Fixpoint sort (cmp : string -> string -> res Z) (l : list string)
    : res (list string) :=
  match l with
  | [] => Val []
  | x :: l' => (do sorted <- sort cmp l'; insert cmp x sorted)%res
  end.

Definition node : Node :=
  {| path_join := join;
     path_resolve := resolve;
     path_basename := basename;
     path_extname := extname;
     fs_existsSync := fun p => bool_decide (is_Some (lookup p));
     fs_statSync := statSync;
     fs_readdirSync := readdirSync;
     require := load;
     process_cwd := cwd;
     Array_sort := sort |}.

Definition world : World := {| objs := heap; regs := []; logged := [] |}.

(** The same store with a registry of two components. *)
Definition world2 : World :=
  {| objs := heap;
     regs := [{| _parent := None; _collections := [];
                 _components := [(VStr "hello.world", hello_instance);
                                 (VStr "legacy", legacy)] |}];
     logged := [] |}.

(** The same store with a registry [0] that has the collections [c1] and
    [c2], and a registry [1] to merge into it. *)
Definition world3 : World :=
  {| objs := heap;
     regs := [ {| _parent := None;
                  _collections := [(VStr "c1", 2); (VStr "c2", 3)];
                  _components := [(VStr "hello.world", hello_instance)] |};
               {| _parent := None; _collections := [];
                  _components := [(VStr "hello.world", hello2);
                                  (VStr "legacy", legacy)] |};
               {| _parent := Some 0; _collections := []; _components := [] |};
               {| _parent := Some 0; _collections := [];
                  _components := [(VStr "legacy", legacy)] |} ];
     logged := [] |}.

(** The same store with one empty registry. *)
Definition world1 : World :=
  {| objs := heap;
     regs := [{| _parent := None; _collections := []; _components := [] |}];
     logged := [] |}.

End Sample.

(** * Vocabulary of the properties *)

Import ComponentRegistry.

(** The name a component reports: [component.metadata().name]. *)
Definition name_of (h : Heap) (component : value) : res value :=
  (do meta <- call_method h component "metadata";
   get h meta "name")%res.

(** [keeps D P m]: from every world [w], [m] ends in a world related to [w]
    by [P], whether it returns or throws; [D] is what is known when [m] runs
    out of depth ([False] for the methods that cannot). *)
Definition keeps {A} (D : Prop) (P : World -> World -> Prop) (m : M A) : Prop :=
  forall w,
    match m w with
    | Ok _ w' | Throw _ w' => P w w'
    | OutOfDepth => D
    end.

(** The name of the type of a component, as the warning reads it:
    [component['constructor'].name]. *)
Definition constructor_name (h : Heap) (component : value) : res value :=
  (do ctor <- get h component "constructor";
   get h ctor "name")%res.

(** A component is typed when that name can be read. *)
Definition typed (h : Heap) (component : value) : Prop :=
  exists type, constructor_name h component = Val type.

(** The world [__register] ends in, once the name is known: the component
    is added under a free name; under a taken name the warning is logged, or
    nothing is done when the message of the warning throws. *)
Definition registered (this : rid) (name component : value) (w : World) : World :=
  match regs w !! this with
  | Some n =>
      if map_has name (_components n) then
        match constructor_name (objs w) component with
        | Val type => with_logged (logged w ++ [Warn_duplicate_component name type]) w
        | Exn _ => w
        end
      else
        with_regs
          (<[this := {| _parent := _parent n;
                        _collections := _collections n;
                        _components := _components n ++ [(name, component)] |}]>
             (regs w)) w
  | None => w
  end.

(** [getMetadata] writes neither to the registries nor to the log as long
    as the registry is found. *)
Definition same_regs_and_log (w w' : World) : Prop :=
  logged w' = logged w /\ regs w' = regs w.

(** The loop of [getMetadata], and [getMetadata] on a registry that was
    found. *)
Definition copy_metadata (components : list value) : M (list value) :=
  mapM (fun component =>
          bind (eval (fun h => call_method h component "metadata"))
               (fun m => alloc (fun h => Val (Object_assign_fresh m h))))
       components.

Definition metadata_of (r : rid) : M (list value) :=
  bind (getComponents r) (fun components => copy_metadata (map_values components)).

(** A store is closed when every reference kept in one of its objects
    points into it, and a world when moreover the components of its
    registries do. *)
Definition closed_value (n : nat) (v : value) : bool :=
  match v with
  | VRef l => Nat.ltb l n
  | _ => true
  end.

Definition closed_props (n : nat) (ps : list (string * value)) : bool :=
  forallb (fun p => closed_value n (snd p)) ps.

Definition closed_object (n : nat) (o : JSObject) : bool :=
  closed_props n (own o) && closed_props n (hidden o) &&
  match callable o with
  | Some f =>
      closed_value n (fn_prototype f) &&
      match fn_call f with Returns v => closed_value n v | Throws _ => true end &&
      match fn_new f with Constructs fs => closed_props n fs | NewThrows _ => true end
  | None => true
  end.

Definition closed_heap (h : Heap) : bool :=
  forallb (closed_object (length h)) h.

Definition closed_world (w : World) : bool :=
  closed_heap (objs w) &&
  forallb (fun n => forallb (closed_value (length (objs w))) (map_values (_components n)))
          (regs w).

(** The copies [getMetadata] makes of the descriptors of [cs], read in the
    store [h]. *)
Fixpoint copies (h : Heap) (cs : list value) : res (list JSObject) :=
  match cs with
  | [] => Val []
  | c :: cs' =>
      (do m <- call_method h c "metadata";
       do os <- copies h cs';
       Val ({| own := own_enumerable h m; hidden := []; callable := None |} :: os))%res
  end.

(** [h'] has the objects of [h] where [h] has them. *)
Definition extends (h h' : Heap) : Prop :=
  forall l o, h !! l = Some o -> h' !! l = Some o.

(** [merged targets theirs w w']: in [w'] the registries among [targets]
    look up as their map of [w] followed by the entries [theirs], and
    nothing else differs from [w] but the log. *)
Definition merged (targets : list rid) (theirs : JSMap value) (w w' : World) : Prop :=
  objs w' = objs w /\
  forall t nt, regs w !! t = Some nt ->
    exists nt', regs w' !! t = Some nt' /\
      _parent nt' = _parent nt /\
      _collections nt' = _collections nt /\
      forall k, map_get k (_components nt') =
                if bool_decide (t ∈ targets)
                then map_get k (_components nt ++ theirs)
                else map_get k (_components nt).

(** The registries [merge] registers into. *)
Definition merge_targets (this : rid) (recursive : bool) (n : RegistryNode) : list rid :=
  this :: (if recursive then map_values (_collections n) else []).


(** The body of the loop of [merge]. *)
Definition merge_body (this : rid) (recursive : bool) (component : value) : M unit :=
  (run __register this component;
   if recursive then
     do n <- fields this;
     forEach (fun collection => __register collection component)
             (map_values (_collections n))
   else ret tt)%M.

(** [Array.prototype.sort] returns a permutation of the array when the
    comparator returns on its elements. *)
Definition sort_permutes (node : Node) : Prop :=
  forall cmp l,
    (forall a b, In a l -> In b l -> exists z, cmp a b = Val z) ->
    exists l', Array_sort node cmp l = Val l' /\ Permutation l l'.

(** The extensions [__scanDir] keeps. *)
Definition scanned (node : Node) (name : string) : bool :=
  truthy_num (Z.lnot (array_indexOf [""; ".js"] (path_extname node name))).

Definition file_stats : Stats := {| isDirectory := false; isFile := true |}.

(** [structure_kept w w']: the registries of [w'] are those of [w], with
    the parents and collections they had; their components may differ. *)
Definition structure_kept (w w' : World) : Prop :=
  length (regs w') = length (regs w) /\
  forall l n, regs w !! l = Some n ->
    exists n', regs w' !! l = Some n' /\
               _parent n' = _parent n /\ _collections n' = _collections n.

(** [collecting this w w']: what a scan of the registry [this] that groups
    directories into collections does to the registries.  It adds
    registries, each without collections and with [this] as parent; the
    collections it adds to [this] are among them; no other registry gets a
    collection. *)
Definition collecting (this : rid) (w w' : World) : Prop :=
  this < length (regs w) ->
  length (regs w) <= length (regs w') /\
  (forall l n, regs w !! l = Some n ->
     exists n', regs w' !! l = Some n' /\
       _parent n' = _parent n /\
       (l <> this -> _collections n' = _collections n) /\
       (l = this -> forall kc, In kc (_collections n') ->
                      In kc (_collections n) \/
                      length (regs w) <= snd kc < length (regs w'))) /\
  (forall l n', length (regs w) <= l -> regs w' !! l = Some n' ->
     _collections n' = [] /\ _parent n' = Some this).

(** What [assemble] with a parent leaves: one more registry, without
    collections. *)
Definition flat_assembled (parent : rid) (w w' : World) : Prop :=
  length (regs w') = S (length (regs w)) /\
  (forall l n, regs w !! l = Some n ->
     exists n', regs w' !! l = Some n' /\
                _parent n' = _parent n /\ _collections n' = _collections n) /\
  exists n', regs w' !! length (regs w) = Some n' /\
             _collections n' = [] /\ _parent n' = Some parent.

(** An item [create] passes over: the capability test returns false on it
    and it is neither an object nor a string. *)
Definition passed_over (h : Heap) (item : value) : Prop :=
  registry.isComponent h item = Val false /\
  typeof h item <> "object" /\ typeof h item <> "string".

(** [never_removes w w']: [w'] has the objects and the log of [w], possibly
    followed by more, and the registries of [w] with the parent, the
    components and the names of collections they had, possibly with more. *)
Definition never_removes (w w' : World) : Prop :=
  objs w `prefix_of` objs w' /\
  logged w `prefix_of` logged w' /\
  forall t n, regs w !! t = Some n ->
    exists n', regs w' !! t = Some n' /\
      _parent n' = _parent n /\
      (forall k c, map_get k (_components n) = Some c ->
                   map_get k (_components n') = Some c) /\
      (forall k, In k (map_keys (_collections n)) ->
                 In k (map_keys (_collections n'))).

(** The names of the components of a registry are distinct, and so are the
    names of its collections. *)
Definition unique_names (w : World) : Prop :=
  forall t n, regs w !! t = Some n ->
    NoDup (map_keys (_components n)) /\ NoDup (map_keys (_collections n)).

Definition unique_names_kept (w w' : World) : Prop :=
  unique_names w -> unique_names w'.

(** [untouched w w']: the registries of [w] are in [w'] as they were. *)
Definition untouched (w w' : World) : Prop :=
  length (regs w) <= length (regs w') /\
  forall l, l < length (regs w) -> regs w' !! l = regs w !! l.

(** [touches_only this w w']: the registries of [w] other than [this] are in
    [w'] as they were. *)
Definition touches_only (this : rid) (w w' : World) : Prop :=
  this < length (regs w) ->
  length (regs w) <= length (regs w') /\
  forall l, l < length (regs w) -> l <> this -> regs w' !! l = regs w !! l.

(** [well_appended w w']: the store is the same, and each registry of [w]
    has in [w'] its components followed by components kept under names it
    did not have. *)
Definition well_appended (w w' : World) : Prop :=
  objs w' = objs w /\
  forall t nt, regs w !! t = Some nt ->
    exists nt' extra, regs w' !! t = Some nt' /\
      _collections nt' = _collections nt /\
      _components nt' = _components nt ++ extra /\
      Forall (fun kc => map_get (fst kc) (_components nt) = None) extra.

(** [covered ts es w]: each registry among [ts] has every name of [es]. *)
Definition covered (ts : list rid) (es : JSMap value) (w : World) : Prop :=
  forall t, In t ts ->
    exists nt, regs w !! t = Some nt /\
      forall kc, In kc es -> map_has (fst kc) (_components nt) = true.

(** [m'] does what [m] does wherever [m] does not run out of depth. *)
Definition at_least {A} (m m' : M A) : Prop :=
  forall w, m w <> OutOfDepth -> m' w = m w.

(** * Properties *)

(** ** The [Map] operations *)

Section JSMap_facts.
Context {V : Type}.
Implicit Types (m : JSMap V) (k : value) (v : V).

Lemma map_has_get k m : map_has k m = true <-> is_Some (map_get k m).
Proof.
  unfold map_has. destruct (map_get k m); split; intros H; eauto.
  - discriminate.
  - destruct H; discriminate.
Qed.

Lemma map_has_false k m : map_has k m = false <-> map_get k m = None.
Proof. unfold map_has. destruct (map_get k m); split; congruence. Qed.

Lemma map_get_app k m m' :
  map_get k (m ++ m') =
  match map_get k m with Some v => Some v | None => map_get k m' end.
Proof.
  induction m as [|[k' v'] m IH]; simpl; [reflexivity|].
  destruct (decide (k' = k)); [reflexivity | exact IH].
Qed.

Lemma map_set_absent k v m :
  map_get k m = None -> map_set k v m = m ++ [(k, v)].
Proof.
  induction m as [|[k' v'] m IH]; simpl; [reflexivity|].
  destruct (decide (k' = k)); [discriminate|].
  intros H. now rewrite IH.
Qed.

Lemma map_get_set_eq k v m : map_get k (map_set k v m) = Some v.
Proof.
  induction m as [|[k' v'] m IH]; simpl.
  - destruct (decide (k = k)); congruence.
  - destruct (decide (k' = k)) as [E|N]; simpl.
    + destruct (decide (k' = k)); congruence.
    + destruct (decide (k' = k)); [congruence | exact IH].
Qed.

Lemma map_get_set_ne k k' v m :
  k <> k' -> map_get k' (map_set k v m) = map_get k' m.
Proof.
  intros N. induction m as [|[k0 v0] m IH]; simpl.
  - destruct (decide (k = k')); congruence.
  - destruct (decide (k0 = k)) as [E|N0]; simpl.
    + subst k0. destruct (decide (k = k')); congruence.
    + destruct (decide (k0 = k')); [reflexivity | exact IH].
Qed.

Lemma map_get_In k v m : map_get k m = Some v -> In (k, v) m.
Proof.
  induction m as [|[k' v'] m IH]; simpl; [discriminate|].
  destruct (decide (k' = k)) as [->|N]; intros H.
  - left. congruence.
  - right. auto.
Qed.
End JSMap_facts.

(** Unfolding the monad. *)
Ltac unfold_M :=
  cbv beta iota zeta delta [bind ret eval alloc throw log try_catch fields].

(** ** What a method keeps *)

Section keeps.
Context (D : Prop) (P : World -> World -> Prop) `{!PreOrder P}.

Lemma keeps_ret {A} (a : A) : keeps D P (ret a).
Proof. intros w. simpl. reflexivity. Qed.

Lemma keeps_throw {A} e : keeps D P (@throw A e).
Proof. intros w. simpl. reflexivity. Qed.

Lemma keeps_eval {A} (f : Heap -> res A) : keeps D P (eval f).
Proof. intros w. unfold eval. destruct (f (objs w)); reflexivity. Qed.

Lemma keeps_alloc {A} (f : Heap -> res (A * Heap)) :
  (forall h a h', f h = Val (a, h') -> forall w, objs w = h -> P w (with_objs h' w)) ->
  keeps D P (alloc f).
Proof.
  intros H w. unfold alloc.
  destruct (f (objs w)) as [[a h']|] eqn:E; [|reflexivity].
  eapply H; eauto.
Qed.

Lemma keeps_bind {A B} (m : M A) (k : A -> M B) :
  keeps D P m -> (forall a, keeps D P (k a)) -> keeps D P (bind m k).
Proof.
  intros Hm Hk w. unfold bind. specialize (Hm w).
  destruct (m w) as [a w1|e w1|]; auto.
  specialize (Hk a w1). destruct (k a w1); auto; etransitivity; eauto.
Qed.

Lemma keeps_try_catch {A} (body : M A) (handler : exn -> M A) :
  keeps D P body -> (forall e, keeps D P (handler e)) ->
  keeps D P (try_catch body handler).
Proof.
  intros Hb Hh w. unfold try_catch. specialize (Hb w).
  destruct (body w) as [a w1|e w1|]; auto.
  specialize (Hh e w1). destruct (handler e w1); auto; etransitivity; eauto.
Qed.

Lemma keeps_mapM {A B} (f : A -> M B) (l : list A) :
  (forall a, keeps D P (f a)) -> keeps D P (mapM f l).
Proof.
  intros Hf. induction l as [|a l IH]; simpl.
  - apply keeps_ret.
  - apply keeps_bind; [apply Hf|]. intros b.
    apply keeps_bind; [apply IH|]. intros bs. apply keeps_ret.
Qed.

Lemma keeps_forEach {A} (f : A -> M unit) (l : list A) :
  (forall a, keeps D P (f a)) -> keeps D P (forEach f l).
Proof.
  intros Hf. induction l as [|a l IH]; simpl.
  - apply keeps_ret.
  - apply keeps_bind; [apply Hf|]. intros _. apply IH.
Qed.
End keeps.

(** ** Registration *)

Lemma alter_lookup {A} (f : A -> A) (l : list A) i x :
  l !! i = Some x -> alter f i l = <[i := f x]> l.
Proof.
  revert i. induction l as [|y l IH]; intros [|i]; simpl; try discriminate.
  - intros [= ->]. reflexivity.
  - intros H. f_equal. apply IH, H.
Qed.

Lemma __register_run this component name w n :
  regs w !! this = Some n ->
  name_of (objs w) component = Val name ->
  __register this component w =
  if map_has name (_components n) then
    match constructor_name (objs w) component with
    | Val _ => Ok tt (registered this name component w)
    | Exn e => Throw e (registered this name component w)
    end
  else Ok tt (registered this name component w).
Proof.
  intros Hn Hname. unfold name_of in Hname.
  unfold __register, registered, constructor_name, isComponent. unfold_M.
  destruct (call_method (objs w) component "metadata") as [meta|]; [|discriminate].
  simpl in Hname. rewrite Hname, Hn.
  destruct (map_has name (_components n)) eqn:Hhas.
  - destruct (get (objs w) component "constructor") as [ctor|]; simpl; [|reflexivity].
    destruct (get (objs w) ctor "name"); reflexivity.
  - unfold _components_set. rewrite (alter_lookup _ _ _ _ Hn).
    rewrite (map_set_absent _ _ _ (proj1 (map_has_false _ _) Hhas)).
    reflexivity.
Qed.

Lemma __register_registered this component name w :
  is_Some (regs w !! this) ->
  name_of (objs w) component = Val name ->
  typed (objs w) component ->
  __register this component w = Ok tt (registered this name component w).
Proof.
  intros [n Hn] Hname [type Htype].
  rewrite (__register_run _ _ _ _ _ Hn Hname), Htype.
  now destruct (map_has name (_components n)).
Qed.

Lemma __register_fresh this component name w n :
  regs w !! this = Some n ->
  name_of (objs w) component = Val name ->
  map_has name (_components n) = false ->
  __register this component w = Ok tt (registered this name component w).
Proof.
  intros Hn Hname Hfree.
  now rewrite (__register_run _ _ _ _ _ Hn Hname), Hfree.
Qed.

(** C1: registering [A] under a free name and then [B] under the same name
    leaves the name bound to [A] and the map of components as [A]'s
    registration made it, one entry more than before, whatever [B] is.  The
    warning for the duplicate is logged when the name of [B]'s type can be
    read; for a [B] without a constructor the read throws while the message
    is made, and [__register] throws with it and logs nothing. *)
Theorem register_first_wins (w : World) (this : rid) (n : RegistryNode)
    (A B x : value) :
  regs w !! this = Some n ->
  name_of (objs w) A = Val x ->
  name_of (objs w) B = Val x ->
  map_has x (_components n) = false ->
  exists w1 w2 m,
    __register this A w = Ok tt w1 /\
    (match constructor_name (objs w) B with
     | Val type =>
         __register this B w1 = Ok tt w2 /\
         logged w2 = logged w1 ++ [Warn_duplicate_component x type]
     | Exn e =>
         __register this B w1 = Throw e w2 /\
         logged w2 = logged w1
     end) /\
    getComponent this x w2 = Ok A w2 /\
    getComponents this w1 = Ok m w1 /\
    getComponents this w2 = Ok m w2 /\
    map_size m = (map_size (_components n) + 1)%Z.
Proof.
  intros Hn HA HB Hfree.
  pose (n1 := {| _parent := _parent n; _collections := _collections n;
                 _components := _components n ++ [(x, A)] |}).
  pose (w1 := with_regs (<[this := n1]> (regs w)) w).
  assert (Hthis : this < length (regs w)) by (eapply lookup_lt_Some; eauto).
  assert (Hn1 : regs w1 !! this = Some n1)
    by (simpl; now apply list_lookup_insert_eq).
  assert (Hget : map_get x (_components n1) = Some A).
  { simpl. rewrite map_get_app, (proj1 (map_has_false _ _) Hfree). simpl.
    destruct (decide (x = x)); congruence. }
  assert (Hhas : map_has x (_components n1) = true)
    by (unfold map_has; now rewrite Hget).
  pose proof (__register_run this B x w1 n1 Hn1 HB) as HB1.
  rewrite Hhas in HB1. unfold registered in HB1. rewrite Hn1, Hhas in HB1.
  change (objs w1) with (objs w) in HB1.
  exists w1,
         (match constructor_name (objs w) B with
          | Val type => with_logged (logged w1 ++ [Warn_duplicate_component x type]) w1
          | Exn _ => w1
          end),
         (_components n1).
  split; [|split; [|split; [|split; [|split]]]].
  - rewrite (__register_fresh this A x w n) by eauto.
    unfold registered. now rewrite Hn, Hfree.
  - destruct (constructor_name (objs w) B); now split.
  - unfold getComponent. unfold_M.
    destruct (constructor_name (objs w) B) as [type|e];
      [change (regs (with_logged (logged w1 ++ [Warn_duplicate_component x type]) w1))
         with (regs w1)|];
      now rewrite Hn1, Hget.
  - unfold getComponents. unfold_M. now rewrite Hn1.
  - unfold getComponents. unfold_M.
    destruct (constructor_name (objs w) B) as [type|e];
      [change (regs (with_logged (logged w1 ++ [Warn_duplicate_component x type]) w1))
         with (regs w1)|];
      now rewrite Hn1.
  - unfold map_size. simpl. rewrite length_app. simpl. lia.
Qed.

Lemma register_first_wins_witness :
  exists w1 w2,
    __register 0 Sample.hello_instance Sample.world1 = Ok tt w1 /\
    __register 0 Sample.bare w1
    = Throw (TypeError "Cannot read property of undefined: name") w2 /\
    logged w2 = logged w1 /\
    getComponent 0 (VStr "hello.world") w2 = Ok Sample.hello_instance w2.
Proof.
  destruct (register_first_wins Sample.world1 0
              {| _parent := None; _collections := []; _components := [] |}
              Sample.hello_instance Sample.bare (VStr "hello.world")
              eq_refl eq_refl eq_refl eq_refl)
    as (w1 & w2 & m & HA & HB & Hget & _).
  simpl in HB. destruct HB as [HB Hlog].
  exists w1, w2. repeat split; assumption.
Defined.

(** The component without a constructor passes the capability test, so
    [create] takes it, and a list that holds it after a component of the
    same name makes [create] throw. *)
Example create_throws_on_duplicate_without_constructor :
  registry.isComponent Sample.heap Sample.bare = Val true /\
  create Sample.node 0 [Sample.hello2; Sample.bare] "/srv" Sample.world
  = Throw (TypeError "Cannot read property of undefined: name")
          (with_regs [{| _parent := None; _collections := [];
                         _components := [(VStr "hello.world", Sample.hello2)] |}]
                     Sample.world).
Proof. split; reflexivity. Qed.

(** With a constructor the duplicate is warned about: the class instance
    is rejected after the legacy component of the same name, and the
    warning names its class. *)
Example register_duplicate_warns :
  exists w1,
    __register 0 Sample.hello2 Sample.world1 = Ok tt w1 /\
    __register 0 Sample.hello_instance w1
    = Ok tt (with_logged [Warn_duplicate_component (VStr "hello.world")
                                                   (VStr "HelloWorld")] w1).
Proof. eexists. split; reflexivity. Qed.

(** ** The capability test *)

(** C4: the capability test does not return on every value.  On [null] the
    guard [typeof ref === 'object'] holds and the read of [ref.metadata]
    throws; on an arrow function [ref.prototype] is [undefined] and the
    read of [ref.prototype.metadata] throws. *)
Theorem isComponent_throws_on_null_and_arrow :
  (forall h, registry.isComponent h VNull
             = Exn (TypeError "Cannot read property of null: metadata")) /\
  registry.isComponent Sample.heap Sample.arrow
  = Exn (TypeError "Cannot read property of undefined: metadata").
Proof. split; [intros h|]; reflexivity. Qed.

(** On the other primitives the test returns [false]. *)
Lemma isComponent_primitive h v :
  match v with VNull | VRef _ => False | _ => True end ->
  registry.isComponent h v = Val false.
Proof. destruct v; simpl; intros H; try reflexivity; destruct H. Qed.

(** ** Lookups *)

Lemma getRegistry_falsy this collection w :
  truthy collection = false ->
  getRegistry this collection w = Ok (Some this) w.
Proof. intros H. unfold getRegistry. now rewrite H. Qed.

Lemma getRegistry_truthy this collection w n :
  truthy collection = true ->
  regs w !! this = Some n ->
  getRegistry this collection w = Ok (map_get collection (_collections n)) w.
Proof.
  intros H Hn. unfold getRegistry. rewrite H. unfold_M. now rewrite Hn.
Qed.

#[local] Instance same_regs_and_log_preorder : PreOrder same_regs_and_log.
Proof.
  split.
  - intros w. now split.
  - intros w1 w2 w3 [? ?] [? ?]. split; congruence.
Qed.

Lemma getMetadata_found this collection w r :
  getRegistry this collection w = Ok (Some r) w ->
  getMetadata this collection w = metadata_of r w.
Proof. intros H. unfold getMetadata, bind at 1. now rewrite H. Qed.

Lemma getMetadata_not_found this collection w :
  getRegistry this collection w = Ok None w ->
  getMetadata this collection w
  = Ok [] (with_logged (logged w ++ [Error_invalid_registry_requested collection]) w).
Proof. intros H. unfold getMetadata, bind at 1. now rewrite H. Qed.

Lemma copy_metadata_frame (cs : list value) :
  keeps False same_regs_and_log (copy_metadata cs).
Proof.
  apply keeps_mapM; [apply _|]. intros c.
  apply keeps_bind; [apply _| |].
  - apply keeps_eval, _.
  - intros m. apply keeps_alloc; [apply _|]. intros h a h' _ w. now split.
Qed.

Lemma metadata_of_frame r : keeps False same_regs_and_log (metadata_of r).
Proof.
  intros w. unfold metadata_of, getComponents. unfold bind at 1 2. unfold fields.
  destruct (regs w !! r) as [n|]; [|reflexivity].
  apply copy_metadata_frame.
Qed.

(** ** Validity and the missing directory *)

Lemma isValid_spec this w n :
  regs w !! this = Some n ->
  exists b, isValid this w = Ok b w /\
            (b = true <-> 1 <= length (_components n) \/ 1 <= length (_collections n)).
Proof.
  intros Hn. unfold isValid. unfold_M. rewrite Hn.
  eexists; split; [reflexivity|].
  unfold truthy_num, map_size.
  destruct (_components n) as [|c cs], (_collections n) as [|d ds]; simpl;
    split; intros H; try lia; try reflexivity; try discriminate.
Qed.

(** C6: [assemble] on a directory that does not exist returns a new
    registry without components or collections, having logged the error, and
    that registry is not valid; a registry is valid exactly when it has a
    component or a collection. *)
Theorem assemble_missing_directory (node : Node) (depth : nat)
    (parent : option rid) (componentDir cwd : string) (w : World) :
  fs_existsSync node (path_resolve node (fullPath node cwd componentDir)) = false ->
  2 <= depth ->
  let this := length (regs w) in
  let w' :=
    {| objs := objs w;
       regs := regs w ++ [{| _parent := parent; _collections := []; _components := [] |}];
       logged := logged w ++
                 [Error_invalid_component_directory (fullPath node cwd componentDir)] |} in
  assemble node depth parent componentDir cwd w = Ok this w' /\
  isValid this w' = Ok false w' /\
  (forall this0 w0 n, regs w0 !! this0 = Some n ->
     exists b, isValid this0 w0 = Ok b w0 /\
               (b = true <-> 1 <= length (_components n) \/ 1 <= length (_collections n))).
Proof.
  intros Hmissing Hdepth this w'.
  destruct depth as [|[|depth]]; try lia.
  split; [|split].
  - simpl. unfold_M. unfold constructor. rewrite Hmissing. reflexivity.
  - unfold isValid. unfold_M. subst this w'. simpl.
    rewrite lookup_app_r by lia. rewrite Nat.sub_diag. reflexivity.
  - intros. now apply isValid_spec.
Qed.

Lemma assemble_missing_directory_witness :
  assemble Sample.node 2 None "missing" "/srv" Sample.world
  = Ok 0 {| objs := Sample.heap;
            regs := [{| _parent := None; _collections := []; _components := [] |}];
            logged := [Error_invalid_component_directory "/srv/missing"] |}.
Proof.
  exact (proj1 (assemble_missing_directory Sample.node 2 None "missing" "/srv"
                  Sample.world eq_refl (le_n 2))).
Defined.

(** ** Metadata *)

Section read_locality.
Variables h h' : Heap.
Hypothesis Hclosed : closed_heap h = true.
Hypothesis Hext : extends h h'.

Let n := length h.

Lemma closed_lookup l :
  l < n -> exists o, h !! l = Some o /\ h' !! l = Some o /\ closed_object n o = true.
Proof.
  intros Hl. destruct (lookup_lt_is_Some_2 h l Hl) as [o Ho].
  exists o. split; [exact Ho|]. split; [now apply Hext|].
  unfold closed_heap in Hclosed. rewrite forallb_forall in Hclosed.
  apply Hclosed. apply list_elem_of_In. eapply list_elem_of_lookup_2; eauto.
Qed.

Lemma closed_assoc k ps x :
  closed_props n ps = true -> assoc k ps = Some x -> closed_value n x = true.
Proof.
  unfold closed_props. induction ps as [|[k' v] ps IH]; simpl; [discriminate|].
  intros H. apply andb_prop in H as [Hv Hps].
  destruct (String.eqb k k'); [intros [= <-]; exact Hv | now apply IH].
Qed.

Lemma get_local v k :
  closed_value n v = true ->
  get h' v k = get h v k /\
  forall x, get h v k = Val x -> closed_value n x = true.
Proof.
  intros Hv.
  destruct v as [| | | | |l];
    try (split; [reflexivity | intros x Hx; inversion Hx; subst; reflexivity]).
  apply Nat.ltb_lt in Hv. destruct (closed_lookup l Hv) as (o & Ho & Ho' & Hc).
  unfold get. rewrite Ho, Ho'. split; [reflexivity|].
  unfold closed_object in Hc.
  apply andb_prop in Hc as [Hc Hf]. apply andb_prop in Hc as [Hown Hhid].
  assert (Hdef : forall x, Val (default VUndefined (assoc k (hidden o))) = Val x ->
                           closed_value n x = true).
  { intros x [= <-]. destruct (assoc k (hidden o)) eqn:E; [|reflexivity].
    exact (closed_assoc _ _ _ Hhid E). }
  destruct (assoc k (own o)) eqn:E.
  - intros x [= <-]. exact (closed_assoc _ _ _ Hown E).
  - destruct (callable o) as [f|]; [|exact Hdef].
    destruct (String.eqb k "prototype"); [|exact Hdef].
    intros x [= <-]. apply andb_prop in Hf as [Hf _]. now apply andb_prop in Hf as [Hf _].
Qed.

Lemma func_at_local v f :
  closed_value n v = true ->
  func_at h' v = func_at h v /\
  (func_at h v = Some f ->
   match fn_call f with Returns x => closed_value n x = true | Throws _ => True end).
Proof.
  intros Hv. destruct v as [| | | | |l]; try (split; [reflexivity | discriminate]).
  apply Nat.ltb_lt in Hv. destruct (closed_lookup l Hv) as (o & Ho & Ho' & Hc).
  unfold func_at. rewrite Ho, Ho'. split; [reflexivity|]. intros Hf.
  unfold closed_object in Hc. rewrite Hf in Hc.
  apply andb_prop in Hc as [_ Hc]. apply andb_prop in Hc as [Hc _].
  apply andb_prop in Hc as [_ Hc]. destruct (fn_call f); auto.
Qed.

Lemma call_method_local v k :
  closed_value n v = true ->
  call_method h' v k = call_method h v k /\
  forall x, call_method h v k = Val x -> closed_value n x = true.
Proof.
  intros Hv. unfold call_method.
  destruct (get_local v k Hv) as [-> Hres].
  destruct (get h v k) as [m|e]; simpl; [|split; [reflexivity | discriminate]].
  specialize (Hres m eq_refl).
  destruct (func_at h m) as [f|] eqn:Hf.
  - destruct (func_at_local m f Hres) as [-> Hcall]. rewrite Hf.
    specialize (Hcall Hf). split; [reflexivity|].
    destruct (fn_call f); [intros x [= <-]; exact Hcall | discriminate].
  - destruct (func_at_local m {| fn_prototype := VUndefined; fn_call := Throws (Thrown VUndefined); fn_new := NewThrows (Thrown VUndefined) |} Hres) as [-> _].
    rewrite Hf. split; [reflexivity | discriminate].
Qed.

Lemma own_enumerable_local v :
  closed_value n v = true -> own_enumerable h' v = own_enumerable h v.
Proof.
  intros Hv. destruct v as [| | | | |l]; try reflexivity.
  apply Nat.ltb_lt in Hv. destruct (closed_lookup l Hv) as (o & Ho & Ho' & _).
  unfold own_enumerable. now rewrite Ho, Ho'.
Qed.
End read_locality.

Lemma extends_refl h : extends h h.
Proof. intros l o H. exact H. Qed.

Lemma extends_app h h' os : extends h h' -> extends h (h' ++ os).
Proof. intros H l o Hl. apply lookup_app_l_Some. now apply H. Qed.

Lemma extends_length h h' : extends h h' -> length h <= length h'.
Proof.
  intros H. destruct h as [|o h] using rev_ind; [simpl; lia|].
  specialize (H (length h) o). rewrite lookup_app_r, Nat.sub_diag in H by lia.
  specialize (H eq_refl). apply lookup_lt_Some in H. rewrite length_app. simpl. lia.
Qed.


Lemma copy_metadata_cons c cs w :
  copy_metadata (c :: cs) w =
  match call_method (objs w) c "metadata" with
  | Val m =>
      match copy_metadata cs (with_objs (snd (Object_assign_fresh m (objs w))) w) with
      | Ok bs w' => Ok (VRef (length (objs w)) :: bs) w'
      | Throw e w' => Throw e w'
      | OutOfDepth => OutOfDepth
      end
  | Exn e => Throw e w
  end.
Proof.
  unfold copy_metadata. simpl. unfold_M.
  destruct (call_method (objs w) c "metadata"); reflexivity.
Qed.

(** The loop of [getMetadata] appends the copies to the store and returns
    the references to them; the descriptors are read in the part of the
    store the loop started from. *)
Lemma copy_metadata_run (h : Heap) (cs : list value) (w : World) :
  closed_heap h = true ->
  forallb (closed_value (length h)) cs = true ->
  extends h (objs w) ->
  match copies h cs with
  | Val os =>
      copy_metadata cs w
      = Ok (map VRef (seq (length (objs w)) (length os))) (with_objs (objs w ++ os) w)
  | Exn e => exists w', copy_metadata cs w = Throw e w'
  end.
Proof.
  intros Hclosed Hcs. revert w.
  induction cs as [|c cs IH]; intros w Hext.
  - simpl. unfold ret, with_objs. rewrite app_nil_r. now destruct w.
  - simpl in Hcs. apply andb_prop in Hcs as [Hc Hcs].
    destruct (call_method_local h (objs w) Hclosed Hext c "metadata" Hc) as [Hcall Hres].
    rewrite copy_metadata_cons, Hcall. simpl copies.
    destruct (call_method h c "metadata") as [m|e]; simpl; [|eauto].
    specialize (Hres m eq_refl).
    rewrite (own_enumerable_local h (objs w) Hclosed Hext m Hres).
    set (o := {| own := own_enumerable h m; hidden := []; callable := None |}).
    specialize (IH Hcs (with_objs (objs w ++ [o]) w) (extends_app _ _ _ Hext)).
    destruct (copies h cs) as [os|e]; simpl.
    + rewrite IH. simpl. rewrite length_app. simpl. rewrite Nat.add_1_r.
      unfold with_objs. simpl. now rewrite <- app_assoc.
    + destruct IH as [w' ->]. eauto.
Qed.






(** The copies are shallow: the copy of the first descriptor of the sample
    shares the object under [properties] with the descriptor. *)
Example getMetadata_copy_is_shallow :
  exists ms w1,
    getMetadata 0 VUndefined Sample.world2 = Ok ms w1 /\
    get (objs w1) (nth 0 ms VUndefined) "properties" = Val (VRef 1) /\
    get (objs w1) (VRef 0) "properties" = Val (VRef 1).
Proof. eexists _, _. split; [vm_compute; reflexivity|]. split; reflexivity. Qed.

(** C10: a falsy collection name, the empty string among them, stands for
    the node itself: [getRegistry] returns the node, and [getMetadata] does
    what it does without a name and logs nothing.  The absent registry, and
    the empty sequence with a logged error, are the outcome for exactly the
    truthy names that are not a key of the collections.  What [getMetadata]
    returns for a falsy name is the metadata of the node itself: one new
    object for each of its own components, the copy of the descriptor that
    component reports, or the error of the first [metadata()] that throws. *)
Theorem falsy_collection_name_is_this (this : rid) (collection : value) (w : World) :
  truthy collection = false ->
  getRegistry this collection w = Ok (Some this) w /\
  getMetadata this collection w = getMetadata this VUndefined w /\
  match getMetadata this collection w with
  | Ok _ w' | Throw _ w' => logged w' = logged w
  | OutOfDepth => False
  end /\
  (forall c n, regs w !! this = Some n ->
     (getRegistry this c w = Ok None w <->
      truthy c = true /\ map_get c (_collections n) = None) /\
     (getMetadata this c w
      = Ok [] (with_logged (logged w ++ [Error_invalid_registry_requested c]) w) <->
      truthy c = true /\ map_get c (_collections n) = None)) /\
  (forall n, regs w !! this = Some n -> closed_world w = true ->
     match copies (objs w) (map_values (_components n)) with
     | Val os =>
         getMetadata this collection w
         = Ok (map VRef (seq (length (objs w)) (length os)))
              (with_objs (objs w ++ os) w)
     | Exn e => exists w', getMetadata this collection w = Throw e w'
     end).
Proof.
  intros H.
  assert (Hown : forall c, truthy c = false ->
                           getMetadata this c w = metadata_of this w).
  { intros c Hc. apply getMetadata_found. now apply getRegistry_falsy. }
  assert (Hlog : forall (ms : list value) (w' : World) (e : LogEntry),
             metadata_of this w = Ok ms (with_logged (logged w ++ [e]) w') -> False).
  { intros ms w' e Hm. pose proof (metadata_of_frame this w) as F.
    rewrite Hm in F. destruct F as [F _]. simpl in F.
    apply (f_equal (@length _)) in F. rewrite length_app in F. simpl in F. lia. }
  split; [now apply getRegistry_falsy|].
  split; [now rewrite !Hown|].
  split.
  { rewrite (Hown _ H). pose proof (metadata_of_frame this w) as F.
    destruct (metadata_of this w); unfold same_regs_and_log in F; tauto. }
  split; cycle 1.
  { intros n Hn Hw. rewrite (Hown _ H).
    unfold closed_world in Hw. apply andb_prop in Hw as [Hheap Hregs].
    assert (Hcs : forallb (closed_value (length (objs w)))
                          (map_values (_components n)) = true).
    { rewrite forallb_forall in Hregs. apply Hregs.
      apply list_elem_of_In. eapply list_elem_of_lookup_2; eauto. }
    assert (Hloop : metadata_of this w = copy_metadata (map_values (_components n)) w).
    { unfold metadata_of, getComponents. unfold bind at 1 2. unfold fields.
      now rewrite Hn. }
    rewrite Hloop.
    exact (copy_metadata_run (objs w) (map_values (_components n)) w Hheap Hcs
             (extends_refl _)). }
  intros c n Hn. destruct (truthy c) eqn:Hc.
  - pose proof (getRegistry_truthy _ _ _ _ Hc Hn) as Hr. split.
    + rewrite Hr. split.
      * intros [= E]. now split.
      * intros [_ E]. now rewrite E.
    + destruct (map_get c (_collections n)) as [r|] eqn:E.
      * rewrite (getMetadata_found _ _ _ _ Hr).
        split; [|intros [_ ?]; discriminate].
        intros Hm. exfalso.
        pose proof (metadata_of_frame r w) as F.
        rewrite Hm in F. destruct F as [F _]. simpl in F.
        apply (f_equal (@length _)) in F. rewrite length_app in F. simpl in F. lia.
      * rewrite (getMetadata_not_found _ _ _ Hr). now split.
  - split.
    + rewrite (getRegistry_falsy _ _ _ Hc).
      split; [discriminate | intros [? _]; discriminate].
    + rewrite (Hown _ Hc). split; [|intros [? _]; discriminate].
      intros Hm. exfalso. eapply Hlog, Hm.
Qed.

Lemma falsy_collection_name_is_this_witness :
  getRegistry 0 (VStr "") Sample.world2 = Ok (Some 0) Sample.world2 /\
  getMetadata 0 (VStr "") Sample.world2 = getMetadata 0 VUndefined Sample.world2 /\
  getMetadata 0 (VStr "") Sample.world2
  = Ok [VRef 20; VRef 21]
       (with_objs (Sample.heap ++
                   [Sample.object [("name", VStr "hello.world"); ("properties", VRef 1)];
                    Sample.object [("name", VStr "legacy")]])
                  Sample.world2).
Proof.
  destruct (falsy_collection_name_is_this 0 (VStr "") Sample.world2 eq_refl)
    as (H1 & H2 & _ & _ & H5).
  split; [exact H1|]. split; [exact H2|].
  exact (H5 _ eq_refl eq_refl).
Defined.

(** ** Merge *)

Lemma merged_nil targets w : merged targets [] w w.
Proof.
  split; [reflexivity|]. intros t nt Hnt. exists nt. repeat split; try assumption.
  intros k. rewrite app_nil_r. now destruct (bool_decide _).
Qed.

Lemma merged_app targets es1 es2 w w1 w2 :
  merged targets es1 w w1 -> merged targets es2 w1 w2 ->
  merged targets (es1 ++ es2) w w2.
Proof.
  intros [Ho1 H1] [Ho2 H2]. split; [congruence|].
  intros t nt Hnt. destruct (H1 t nt Hnt) as (nt1 & Hnt1 & Hp1 & Hc1 & Hg1).
  destruct (H2 t nt1 Hnt1) as (nt2 & Hnt2 & Hp2 & Hc2 & Hg2).
  exists nt2. split; [assumption|]. split; [congruence|]. split; [congruence|].
  intros k. rewrite Hg2. destruct (bool_decide (t ∈ targets)); [|apply Hg1].
  rewrite app_assoc, (map_get_app k (_components nt ++ es1)), <- Hg1.
  now rewrite map_get_app.
Qed.

Lemma merged_targets t ts e w w1 w2 :
  merged [t] [e] w w1 -> merged ts [e] w1 w2 -> merged (t :: ts) [e] w w2.
Proof.
  intros [Ho1 H1] [Ho2 H2]. split; [congruence|].
  intros t0 nt Hnt. destruct (H1 t0 nt Hnt) as (nt1 & Hnt1 & Hp1 & Hc1 & Hg1).
  destruct (H2 t0 nt1 Hnt1) as (nt2 & Hnt2 & Hp2 & Hc2 & Hg2).
  exists nt2. split; [assumption|]. split; [congruence|]. split; [congruence|].
  intros k. rewrite Hg2, (map_get_app k (_components nt1)), !Hg1, !map_get_app.
  destruct (decide (t0 = t)) as [->|Hne].
  - rewrite (bool_decide_eq_true_2 (t ∈ [t])) by (left).
    rewrite (bool_decide_eq_true_2 (t ∈ t :: ts)) by (left).
    destruct (bool_decide (t ∈ ts)), (map_get k (_components nt)),
      (map_get k [e]); reflexivity.
  - rewrite (bool_decide_eq_false_2 (t0 ∈ [t]))
      by (intros Hin; apply list_elem_of_singleton in Hin; contradiction).
    destruct (bool_decide (t0 ∈ ts)) eqn:E.
    + apply bool_decide_eq_true_1 in E.
      now rewrite (bool_decide_eq_true_2 (t0 ∈ t :: ts)) by (now right).
    + apply bool_decide_eq_false_1 in E.
      rewrite (bool_decide_eq_false_2 (t0 ∈ t :: ts)); [reflexivity|].
      intros Hin. apply elem_of_cons in Hin as [?|?]; contradiction.
Qed.

Lemma registered_merged t x c w :
  is_Some (regs w !! t) -> merged [t] [(x, c)] w (registered t x c w).
Proof.
  intros [n Hn]. unfold registered. rewrite Hn.
  assert (Ht : t < length (regs w)) by (eapply lookup_lt_Some; eauto).
  split; [now destruct (map_has x (_components n)), (constructor_name (objs w) c)|].
  intros t0 nt Hnt. destruct (decide (t0 = t)) as [->|Hne].
  - rewrite (bool_decide_eq_true_2 (t ∈ [t])) by (left).
    rewrite Hn in Hnt. injection Hnt as <-.
    destruct (map_has x (_components n)) eqn:Hhas; simpl.
    + exists n. split; [now destruct (constructor_name (objs w) c)|].
      repeat split; try assumption. intros k. rewrite map_get_app.
      destruct (map_get k (_components n)) eqn:E; [reflexivity|]. simpl.
      destruct (decide (x = k)) as [->|]; [|reflexivity].
      apply map_has_get in Hhas as [v Hv]. congruence.
    + eexists. split; [now apply list_lookup_insert_eq|]. now repeat split.
  - rewrite (bool_decide_eq_false_2 (t0 ∈ [t]))
      by (intros Hin; apply list_elem_of_singleton in Hin; contradiction).
    exists nt. split; [|now repeat split].
    destruct (map_has x (_components n)); simpl;
      [now destruct (constructor_name (objs w) c)|].
    now rewrite list_lookup_insert_ne.
Qed.

Lemma merged_valid targets es w w' t :
  merged targets es w w' -> is_Some (regs w !! t) -> is_Some (regs w' !! t).
Proof. intros [_ H] [n Hn]. destruct (H t n Hn) as (n' & Hn' & _). eauto. Qed.

(** One component registered into a list of registries. *)
Lemma register_each_merged c x (ts : list rid) w :
  name_of (objs w) c = Val x ->
  typed (objs w) c ->
  Forall (fun t => is_Some (regs w !! t)) ts ->
  exists w', forEach (fun t => __register t c) ts w = Ok tt w' /\
             merged ts [(x, c)] w w'.
Proof.
  intros Hname Htyped. revert w Hname Htyped.
  induction ts as [|t ts IH]; intros w Hname Htyped Hts.
  - exists w. split; [reflexivity|]. destruct (merged_nil [] w) as [Ho H].
    split; [exact Ho|]. intros t nt Hnt. exists nt.
    split; [assumption|]. split; [reflexivity|]. split; [reflexivity|].
    intros k. rewrite bool_decide_eq_false_2; [reflexivity|]. apply not_elem_of_nil.
  - apply Forall_cons in Hts as [Ht Hts].
    pose proof (registered_merged t x c w Ht) as Hm.
    assert (Hname' : name_of (objs (registered t x c w)) c = Val x)
      by (destruct Hm as [-> _]; exact Hname).
    assert (Htyped' : typed (objs (registered t x c w)) c)
      by (destruct Hm as [-> _]; exact Htyped).
    assert (Hts' : Forall (fun t0 => is_Some (regs (registered t x c w) !! t0)) ts).
    { eapply Forall_impl; [exact Hts|]. intros t0. simpl.
      apply (merged_valid _ _ _ _ _ Hm). }
    destruct (IH (registered t x c w) Hname' Htyped' Hts') as (w' & Hrun & Hm').
    exists w'. split; [|eapply merged_targets; eauto].
    simpl. unfold bind. now rewrite (__register_registered t c x w Ht Hname Htyped).
Qed.

Lemma merge_step this recursive n c x w :
  regs w !! this = Some n ->
  name_of (objs w) c = Val x ->
  typed (objs w) c ->
  Forall (fun child => is_Some (regs w !! child)) (map_values (_collections n)) ->
  exists w',
    merge_body this recursive c w = Ok tt w' /\
    merged (merge_targets this recursive n) [(x, c)] w w'.
Proof.
  intros Hn Hname Htyped Hchildren. unfold merge_body.
  assert (Hthis : is_Some (regs w !! this)) by eauto.
  pose proof (registered_merged this x c w Hthis) as Hm.
  unfold bind at 1. rewrite (__register_registered this c x w Hthis Hname Htyped).
  destruct Hm as [Ho Hm]. destruct (Hm this n Hn) as (n1 & Hn1 & _ & Hcols & _).
  unfold merge_targets. destruct recursive.
  - unfold bind, fields. rewrite Hn1, Hcols.
    destruct (register_each_merged c x (map_values (_collections n))
                (registered this x c w)) as (w' & Hrun & Hm').
    + now rewrite Ho.
    + now rewrite Ho.
    + eapply Forall_impl; [exact Hchildren|]. intros t. simpl.
      apply (merged_valid [this] [(x, c)] w). now split.
    + exists w'. split; [exact Hrun|].
      eapply merged_targets; [split; eassumption | exact Hm'].
  - exists (registered this x c w). split; [reflexivity|]. now split.
Qed.

Lemma merge_loop this recursive n (es : JSMap value) w :
  regs w !! this = Some n ->
  Forall (fun kc => name_of (objs w) (snd kc) = Val (fst kc)) es ->
  Forall (fun kc => typed (objs w) (snd kc)) es ->
  Forall (fun child => is_Some (regs w !! child)) (map_values (_collections n)) ->
  exists w',
    forEach (merge_body this recursive) (map_values es) w = Ok tt w' /\
    merged (merge_targets this recursive n) es w w'.
Proof.
  revert w n. induction es as [|[x c] es IH]; intros w n Hn Hes Hty Hchildren.
  - exists w. split; [reflexivity | apply merged_nil].
  - apply Forall_cons in Hes as [Hname Hes]. simpl in Hname.
    apply Forall_cons in Hty as [Htyped Hty]. simpl in Htyped.
    destruct (merge_step this recursive n c x w Hn Hname Htyped Hchildren)
      as (w1 & Hrun1 & Hm1).
    pose proof Hm1 as [Ho1 H1]. destruct (H1 this n Hn) as (n1 & Hn1 & _ & Hcols & _).
    destruct (IH w1 n1 Hn1) as (w' & Hrun & Hm).
    + rewrite Ho1. exact Hes.
    + rewrite Ho1. exact Hty.
    + rewrite Hcols. eapply Forall_impl; [exact Hchildren|]. intros t. simpl.
      apply (merged_valid _ _ _ _ _ Hm1).
    + exists w'. split.
      * simpl. unfold bind at 1. rewrite Hrun1. exact Hrun.
      * unfold merge_targets in *. rewrite Hcols in Hm.
        exact (merged_app _ [(x, c)] es _ _ _ Hm1 Hm).
Qed.




(** ** The module resolver *)

Lemma filter_res_throws {A} (p : A -> res bool) (l : list A) (a : A) e :
  In a l -> p a = Exn e -> exists e', filter_res p l = Exn e'.
Proof.
  intros Hin Ha. induction l as [|b l IH]; [destruct Hin|].
  simpl. destruct Hin as [->|Hin].
  - rewrite Ha. simpl. eauto.
  - destruct (p b); simpl; [|eauto].
    destruct (IH Hin) as [e' ->]. simpl. eauto.
Qed.

Lemma filter_res_total {A} (p : A -> res bool) (q : A -> bool) (l : list A) :
  (forall a, In a l -> p a = Val (q a)) -> filter_res p l = Val (List.filter q l).
Proof.
  induction l as [|a l IH]; intros H; simpl; [reflexivity|].
  rewrite (H a (or_introl eq_refl)). simpl.
  rewrite IH by (intros b Hb; apply H; now right). reflexivity.
Qed.

Lemma __resolveComponents_load_error node this filePath w e :
  require node filePath = Throws e ->
  __resolveComponents node this filePath w
  = Ok [] (with_logged (logged w ++ [Error_exception e]) w).
Proof. intros H. unfold __resolveComponents. unfold_M. now rewrite H. Qed.

Lemma __resolveComponents_direct node this filePath w exported :
  require node filePath = Returns exported ->
  registry.isComponent (objs w) exported = Val true ->
  __resolveComponents node this filePath w = Ok [exported] w.
Proof. intros H Hc. unfold __resolveComponents. unfold_M. now rewrite H, Hc. Qed.

(** When the capability test returns on the exported value and on each of
    its property values, the resolver yields the values that pass. *)
Lemma __resolveComponents_values node this filePath w exported values passes :
  require node filePath = Returns exported ->
  registry.isComponent (objs w) exported = Val false ->
  Object_values (objs w) exported = Val values ->
  (forall v, In v values -> registry.isComponent (objs w) v = Val (passes v)) ->
  __resolveComponents node this filePath w = Ok (List.filter passes values) w.
Proof.
  intros H Hc Hv Hall. unfold __resolveComponents. unfold_M.
  rewrite H, Hc, Hv. now rewrite (filter_res_total _ passes values Hall).
Qed.

(** C8: a module whose exported object has the value [null] among its
    properties yields no component, whatever its other properties are: the
    capability test throws on [null], the resolver catches the error and
    returns the empty sequence. *)
Theorem __resolveComponents_null_property (node : Node) (this : rid)
    (filePath : string) (w : World) (exported : value) (values : list value) :
  require node filePath = Returns exported ->
  registry.isComponent (objs w) exported = Val false ->
  Object_values (objs w) exported = Val values ->
  In VNull values ->
  exists e,
    __resolveComponents node this filePath w
    = Ok [] (with_logged (logged w ++ [Error_exception e]) w).
Proof.
  intros H Hc Hv Hnull. unfold __resolveComponents. unfold_M.
  rewrite H, Hc, Hv.
  destruct (filter_res_throws (registry.isComponent (objs w)) values VNull
              (TypeError "Cannot read property of null: metadata") Hnull eq_refl)
    as [e ->].
  now exists e.
Qed.

(** The module [{ a: HelloWorld, b: null }] has one property that passes the
    capability test and yields nothing; so does the module
    [{ a: HelloWorld, helper: () => 1 }]. *)
Lemma __resolveComponents_null_property_witness :
  registry.isComponent Sample.heap Sample.HelloWorld = Val true /\
  (exists e,
     __resolveComponents Sample.node 0 "/srv/mixed/partial.js" Sample.world
     = Ok [] (with_logged (logged Sample.world ++ [Error_exception e]) Sample.world)) /\
  __resolveComponents Sample.node 0 "/srv/mixed/helper.js" Sample.world
  = Ok [] (with_logged
             [Error_exception (TypeError "Cannot read property of undefined: metadata")]
             Sample.world).
Proof.
  split; [reflexivity|]. split; [|reflexivity].
  apply (__resolveComponents_null_property Sample.node 0 "/srv/mixed/partial.js"
           Sample.world (VRef 14) [Sample.HelloWorld; VNull]); try reflexivity.
  right. left. reflexivity.
Defined.

(** The module [{ a: <component>, b: <component>, c: "not a component" }]
    yields its two components. *)
Example __resolveComponents_multi_export :
  __resolveComponents Sample.node 0 "/srv/mixed/multi.js" Sample.world
  = Ok [Sample.HelloWorld; Sample.legacy] Sample.world.
Proof. reflexivity. Qed.

(** ** Paths *)

Lemma fullPath_contains node cwd dirname :
  indexOf dirname cwd <> (-1)%Z -> fullPath node cwd dirname = dirname.
Proof.
  intros H. unfold fullPath, truthy_num.
  destruct (Z.eqb_spec (Z.lnot (indexOf dirname cwd)) 0) as [E|E]; [|reflexivity].
  exfalso. apply H. unfold Z.lnot in E. lia.
Qed.

Lemma fullPath_joins node cwd dirname :
  indexOf dirname cwd = (-1)%Z -> fullPath node cwd dirname = path_join node cwd dirname.
Proof. intros H. unfold fullPath. now rewrite H. Qed.

(** [create] scans a directory it is given and registers what it finds,
    the subdirectories included, into the one registry; items that are
    neither components, objects nor strings add nothing. *)
Example create_flattens :
  exists w',
    create Sample.node 11 [VNum 3; VUndefined; VStr "components"; VBool true]
           "/srv" Sample.world = Ok 0 w' /\
    regs w' = [{| _parent := None;
                  _collections := [];
                  _components := [(VStr "hello.world", VRef 20);
                                  (VStr "legacy", Sample.legacy)] |}].
Proof. eexists. split; vm_compute; reflexivity. Qed.

(** C9: a path string that contains the base directory without lying under
    it is not resolved against the base directory.  With the base [/app],
    the relative path [vendor/app/hello] is handed on as it is, and [create]
    looks for it under the working directory of the process, where it fails,
    though [/app/vendor/app/hello.js] holds a component. *)
Theorem create_path_containing_base_not_resolved :
  (forall node, fullPath node "/app" "vendor/app/hello" = "vendor/app/hello") /\
  require Sample.node (path_join Sample.node "/app" "vendor/app/hello.js")
  = Returns Sample.HelloWorld /\
  create Sample.node 3 [VStr "vendor/app/hello"] "/app" Sample.world
  = Throw (ENOENT "vendor/app/hello.js")
          (with_regs [{| _parent := None; _collections := []; _components := [] |}]
                     Sample.world).
Proof. split; [intros node|split]; reflexivity. Qed.

(** ** The directory scan *)

Section digest_file.
Variable node : Node.
Variables (this : rid) (filePath : string) (withCollections : bool) (depth : nat).
Hypothesis Hexists : fs_existsSync node filePath = true.
Hypothesis Hstat :
  fs_statSync node filePath = Val {| isDirectory := false; isFile := true |}.

Lemma __digestPath_file w :
  __digestPath node (S depth) this filePath withCollections w
  = bind (__resolveComponents node this filePath)
         (fun refs => mapM (fun c => __componentFactory this c) refs) w.
Proof. simpl. rewrite Hexists. unfold bind at 1. unfold eval. now rewrite Hstat. Qed.

Lemma __digestPath_load_error w e :
  require node filePath = Throws e ->
  __digestPath node (S depth) this filePath withCollections w
  = Ok [] (with_logged (logged w ++ [Error_exception e]) w).
Proof.
  intros H. rewrite __digestPath_file. unfold bind.
  now rewrite (__resolveComponents_load_error _ _ _ _ _ H).
Qed.

Lemma __digestPath_component w exported instance h' :
  require node filePath = Returns exported ->
  registry.isComponent (objs w) exported = Val true ->
  new_ (makeCtor (objs w) exported) (objs w) = Val (instance, h') ->
  __digestPath node (S depth) this filePath withCollections w
  = Ok [instance] (with_objs h' w).
Proof.
  intros H Hc Hnew. rewrite __digestPath_file. unfold bind at 1.
  rewrite (__resolveComponents_direct _ _ _ _ _ H Hc).
  simpl. unfold __componentFactory. unfold_M. now rewrite Hnew.
Qed.
End digest_file.

Section two_files.
Variable node : Node.
Variables (dir bad good : string) (names : list string).
Variables (e : exn) (exported instance name : value) (h h' : Heap).
Hypothesis Hsort : sort_permutes node.
Hypothesis Hreaddir : fs_readdirSync node dir = Val names.
Hypothesis Hnames : Permutation names [bad; good].
Hypothesis Hbad_scanned : scanned node bad = true.
Hypothesis Hgood_scanned : scanned node good = true.
Hypothesis Hbad_exists : fs_existsSync node (path_join node dir bad) = true.
Hypothesis Hgood_exists : fs_existsSync node (path_join node dir good) = true.
Hypothesis Hbad_stat : fs_statSync node (path_join node dir bad) = Val file_stats.
Hypothesis Hgood_stat : fs_statSync node (path_join node dir good) = Val file_stats.
Hypothesis Hbad : require node (path_join node dir bad) = Throws e.
Hypothesis Hgood : require node (path_join node dir good) = Returns exported.
Hypothesis Hcomponent : registry.isComponent h exported = Val true.
Hypothesis Hnew : new_ (makeCtor h exported) h = Val (instance, h').

Lemma two_files_sorted :
  exists sorted,
    Array_sort node
      (fun a b => res_bind (fs_statSync node a)
                           (fun st => Val (if isDirectory st then 1 else 0)%Z))
      (map (fun name => path_join node dir name)
           (List.filter (scanned node) names)) = Val sorted /\
    (sorted = [path_join node dir bad; path_join node dir good] \/
     sorted = [path_join node dir good; path_join node dir bad]).
Proof.
  assert (Hfiles : exists files,
             map (fun name => path_join node dir name)
                 (List.filter (scanned node) names) = files /\
             Permutation [path_join node dir bad; path_join node dir good] files).
  { apply Permutation_sym, Permutation_length_2_inv in Hnames as [->| ->]; simpl;
      rewrite Hbad_scanned, Hgood_scanned; simpl; eexists; split; try reflexivity.
    apply perm_swap. }
  destruct Hfiles as (files & -> & Hperm).
  destruct (Hsort (fun a b => res_bind (fs_statSync node a)
                                (fun st => Val (if isDirectory st then 1 else 0)%Z))
                  files) as (sorted & Hsorted & Hperm').
  { intros a b Ha _. apply (Permutation_in _ (Permutation_sym Hperm)) in Ha.
    destruct Ha as [<-|[<-|[]]]; [rewrite Hbad_stat | rewrite Hgood_stat]; simpl; eauto. }
  exists sorted. split; [exact Hsorted|].
  apply Permutation_length_2_inv. now transitivity files.
Qed.

Lemma __scanDir_two_files depth this withCollections w :
  objs w = h ->
  __scanDir node (S (S depth)) this dir withCollections w
  = Ok [instance]
       {| objs := h'; regs := regs w; logged := logged w ++ [Error_exception e] |}.
Proof.
  intros Hobjs. destruct two_files_sorted as (sorted & Hsorted & Hcases).
  cbn [__scanDir]. unfold bind at 1. unfold eval at 1. rewrite Hreaddir.
  unfold bind at 1. unfold eval at 1.
  change (fun name => truthy_num (Z.lnot (array_indexOf [""; ".js"]
                                            (path_extname node name))))
    with (scanned node).
  rewrite Hsorted. unfold bind at 1.
  destruct Hcases as [-> | ->]; cbn [mapM]; unfold bind at 1.
  - rewrite (__digestPath_load_error node this _ withCollections depth
               Hbad_exists Hbad_stat w e Hbad).
    unfold bind at 1 2.
    rewrite (__digestPath_component node this _ withCollections depth
               Hgood_exists Hgood_stat _ exported instance h' Hgood);
      [reflexivity | simpl; now rewrite Hobjs..].
  - rewrite (__digestPath_component node this _ withCollections depth
               Hgood_exists Hgood_stat w exported instance h' Hgood);
      [|now rewrite Hobjs..].
    unfold bind at 1 2.
    rewrite (__digestPath_load_error node this _ withCollections depth
               Hbad_exists Hbad_stat _ e Hbad).
    reflexivity.
Qed.
End two_files.

(** C5: an error raised while a file is loaded is caught by the resolver,
    logged, and the file yields no component; the scan goes on.  [assemble]
    on a directory with one file whose load throws and one file that exports
    a component returns a registry whose components are exactly the
    instance of that component, having logged the error. *)
Theorem scan_survives_load_error (node : Node) (depth : nat) (parent : option rid)
    (componentDir cwd bad good : string) (names : list string) (w : World)
    (e : exn) (exported instance name : value) (h' : Heap) :
  let dir := path_resolve node (fullPath node cwd componentDir) in
  sort_permutes node ->
  fs_existsSync node dir = true ->
  fs_readdirSync node dir = Val names ->
  Permutation names [bad; good] ->
  scanned node bad = true ->
  scanned node good = true ->
  fs_existsSync node (path_join node dir bad) = true ->
  fs_existsSync node (path_join node dir good) = true ->
  fs_statSync node (path_join node dir bad) = Val file_stats ->
  fs_statSync node (path_join node dir good) = Val file_stats ->
  require node (path_join node dir bad) = Throws e ->
  require node (path_join node dir good) = Returns exported ->
  registry.isComponent (objs w) exported = Val true ->
  new_ (makeCtor (objs w) exported) (objs w) = Val (instance, h') ->
  name_of h' instance = Val name ->
  4 <= depth ->
  (forall this filePath w0 e0,
     require node filePath = Throws e0 ->
     __resolveComponents node this filePath w0
     = Ok [] (with_logged (logged w0 ++ [Error_exception e0]) w0)) /\
  assemble node depth parent componentDir cwd w
  = Ok (length (regs w))
       {| objs := h';
          regs := regs w ++ [{| _parent := parent;
                                _collections := [];
                                _components := [(name, instance)] |}];
          logged := logged w ++ [Error_exception e] |}.
Proof.
  intros dir Hsort Hdir Hreaddir Hnames Hb Hg Hbe Hge Hbs Hgs Hbad Hgood Hc Hnew
    Hname Hdepth.
  split; [intros; now apply __resolveComponents_load_error|].
  destruct depth as [|[|[|[|depth]]]]; try lia.
  cbn [assemble]. unfold bind at 1. unfold constructor at 1.
  cbn [__buildFromFs]. fold dir. rewrite Hdir.
  unfold bind at 1 2.
  rewrite (__scanDir_two_files node dir bad good names e exported instance
             (objs w) h' Hsort Hreaddir Hnames Hb Hg Hbe Hge Hbs Hgs Hbad Hgood
             Hc Hnew depth) by reflexivity.
  cbn [forEach]. unfold bind at 1.
  rewrite (__register_fresh _ instance name _
             {| _parent := parent; _collections := []; _components := [] |}).
  - unfold registered. simpl regs.
    rewrite lookup_app_r, Nat.sub_diag by lia. simpl.
    unfold ret, with_regs. simpl. f_equal. f_equal.
    rewrite insert_app_r_alt, Nat.sub_diag by lia. reflexivity.
  - simpl. rewrite lookup_app_r, Nat.sub_diag by lia. reflexivity.
  - exact Hname.
  - reflexivity.
Qed.

Lemma sample_sort_permutes : sort_permutes Sample.node.
Proof.
  intros cmp l. simpl. induction l as [|x l IH]; intros Hcmp.
  - exists []. split; [reflexivity | constructor].
  - destruct IH as (sorted & Hsorted & Hperm).
    { intros a b Ha Hb. apply Hcmp; now right. }
    simpl. rewrite Hsorted. simpl.
    assert (Hins : forall s, (forall y, In y s -> In y l) ->
                     exists s', Sample.insert cmp x s = Val s' /\
                                Permutation (x :: s) s').
    { induction s as [|y s IHs]; intros Hs.
      - exists [x]. split; [reflexivity | apply Permutation_refl].
      - simpl. destruct (Hcmp x y) as [z ->]; [now left | right; apply Hs; now left|].
        simpl. destruct (z >? 0)%Z.
        + destruct IHs as (s' & -> & Hp); [intros y' Hy'; apply Hs; now right|].
          simpl. exists (y :: s'). split; [reflexivity|].
          etransitivity; [apply perm_swap|]. now constructor.
        + eexists. split; [reflexivity | apply Permutation_refl]. }
    destruct (Hins sorted) as (s' & Hs' & Hp).
    { intros y Hy. eapply Permutation_in; [apply Permutation_sym, Hperm | exact Hy]. }
    exists s'. split; [exact Hs'|].
    etransitivity; [|exact Hp]. now constructor.
Qed.

Lemma scan_survives_load_error_witness :
  assemble Sample.node 4 None "flaky" "/srv" Sample.world
  = Ok 0 {| objs := Sample.heap ++ [Sample.prototype [("metadata", VRef 2);
                                                        ("invoke", VRef 3);
                                                        ("constructor", VRef 5)]];
            regs := [{| _parent := None;
                        _collections := [];
                        _components := [(VStr "hello.world", VRef 20)] |}];
            logged := [Error_exception (Thrown (VStr "boom"))] |}.
Proof.
  apply (scan_survives_load_error Sample.node 4 None "flaky" "/srv"
           "broken.js" "hello.js" ["broken.js"; "hello.js"] Sample.world
           (Thrown (VStr "boom")) Sample.HelloWorld (VRef 20) (VStr "hello.world")
           (Sample.heap ++ [Sample.prototype [("metadata", VRef 2); ("invoke", VRef 3);
                                              ("constructor", VRef 5)]])
           sample_sort_permutes);
    try reflexivity; lia.
Defined.

(** ** The depth of the hierarchy *)

#[local] Instance structure_kept_preorder : PreOrder structure_kept.
Proof.
  split.
  - intros w. split; [reflexivity|]. intros l n Hn. exists n. auto.
  - intros w1 w2 w3 [Hl1 H1] [Hl2 H2]. split; [congruence|].
    intros l n Hn. destruct (H1 l n Hn) as (n1 & Hn1 & Hp1 & Hc1).
    destruct (H2 l n1 Hn1) as (n2 & Hn2 & Hp2 & Hc2).
    exists n2. split; [assumption|]. split; congruence.
Qed.

#[local] Instance collecting_preorder this : PreOrder (collecting this).
Proof.
  split.
  - intros w Hthis. split; [lia|]. split.
    + intros l n Hn. exists n. split; [assumption|]. split; [reflexivity|].
      split; [reflexivity|]. intros _ kc Hkc. now left.
    + intros l n' Hl Hn'. apply lookup_lt_Some in Hn'. lia.
  - intros w1 w2 w3 H12 H23 Hthis.
    destruct (H12 Hthis) as (Hlen1 & Hold1 & Hnew1).
    destruct (H23 ltac:(lia)) as (Hlen2 & Hold2 & Hnew2).
    split; [lia|]. split.
    + intros l n Hn. destruct (Hold1 l n Hn) as (n1 & Hn1 & Hp1 & Hne1 & Heq1).
      destruct (Hold2 l n1 Hn1) as (n2 & Hn2 & Hp2 & Hne2 & Heq2).
      exists n2. split; [assumption|]. split; [congruence|]. split.
      * intros Hl. rewrite (Hne2 Hl). now apply Hne1.
      * intros Hl kc Hkc. destruct (Heq2 Hl kc Hkc) as [Hin|Hin]; [|right; lia].
        destruct (Heq1 Hl kc Hin) as [Hin'|Hin']; [now left | right; lia].
    + intros l n3 Hl Hn3.
      destruct (decide (l < length (regs w2))) as [Hlt|Hge].
      * destruct (lookup_lt_is_Some_2 (regs w2) l Hlt) as [n2 Hn2].
        destruct (Hnew1 l n2 Hl Hn2) as [Hc Hp].
        destruct (Hold2 l n2 Hn2) as (n3' & Hn3' & Hp3 & Hne3 & _).
        rewrite Hn3 in Hn3'. injection Hn3' as <-.
        rewrite Hne3 by lia. split; congruence.
      * apply (Hnew2 l n3); [lia | assumption].
Qed.

Lemma structure_kept_collecting this w w' :
  structure_kept w w' -> collecting this w w'.
Proof.
  intros [Hlen H] Hthis. split; [lia|]. split.
  - intros l n Hn. destruct (H l n Hn) as (n' & Hn' & Hp & Hc).
    exists n'. split; [assumption|]. split; [assumption|]. split; [auto|].
    intros _ kc Hkc. left. now rewrite <- Hc.
  - intros l n' Hl Hn'. apply lookup_lt_Some in Hn'. lia.
Qed.

Lemma keeps_impl {A} (D : Prop) (P Q : World -> World -> Prop) (m : M A) :
  (forall w w', P w w' -> Q w w') -> keeps D P m -> keeps D Q m.
Proof. intros H Hm w. specialize (Hm w). destruct (m w); auto. Qed.

Section structure_kept.
Variable D : Prop.

Lemma structure_kept_objs h w : structure_kept w (with_objs h w).
Proof. split; [reflexivity|]. intros l n Hn. exists n. auto. Qed.

Lemma structure_kept_logged l w : structure_kept w (with_logged l w).
Proof. split; [reflexivity|]. intros i n Hn. exists n. auto. Qed.

Lemma keeps_structure_alloc {A} (f : Heap -> res (A * Heap)) :
  keeps D structure_kept (alloc f).
Proof.
  apply keeps_alloc; [apply _|]. intros h a h' _ w _. apply structure_kept_objs.
Qed.

Lemma keeps_structure_log entry : keeps D structure_kept (log entry).
Proof. intros w. apply structure_kept_logged. Qed.

Lemma keeps_structure_fields this : keeps D structure_kept (fields this).
Proof. intros w. unfold fields. destruct (regs w !! this); reflexivity. Qed.

Lemma keeps_structure_register this component :
  keeps D structure_kept (__register this component).
Proof.
  unfold __register.
  apply keeps_bind; [apply _ | apply keeps_eval, _ |]. intros meta.
  apply keeps_bind; [apply _ | apply keeps_eval, _ |]. intros name.
  apply keeps_bind; [apply _ | |].
  { unfold isComponent. apply keeps_bind; [apply _ | apply keeps_structure_fields |].
    intros n. apply keeps_ret, _. }
  intros [|].
  { apply keeps_bind; [apply _ | apply keeps_eval, _ |]. intros ctor.
    apply keeps_bind; [apply _ | apply keeps_eval, _ |]. intros type.
    apply keeps_structure_log. }
  intros w. unfold _components_set. split.
  - simpl. apply length_alter.
  - intros l n Hn. simpl. destruct (decide (l = this)) as [->|Hne].
    + rewrite list_lookup_alter_eq, Hn. simpl. eauto.
    + rewrite list_lookup_alter_ne by congruence. eauto.
Qed.

Lemma keeps_structure_factory this c :
  keeps D structure_kept (__componentFactory this c).
Proof. apply keeps_structure_alloc. Qed.

Lemma keeps_structure_resolve node this filePath :
  keeps D structure_kept (__resolveComponents node this filePath).
Proof.
  unfold __resolveComponents. apply keeps_try_catch; [apply _ | |].
  - apply keeps_bind; [apply _ | apply keeps_eval, _ |]. intros exported.
    apply keeps_bind; [apply _ | apply keeps_eval, _ |]. intros [|].
    + apply keeps_ret, _.
    + apply keeps_bind; [apply _ | apply keeps_eval, _ |]. intros values.
      apply keeps_eval, _.
  - intros e. apply keeps_bind; [apply _ | apply keeps_structure_log |].
    intros _. apply keeps_ret, _.
Qed.
End structure_kept.

Section hierarchy.
Variable node : Node.

(** A scan that does not group directories adds no registry and no
    collection. *)
Lemma flat_scan depth :
  (forall this dir, keeps True structure_kept (__scanDir node depth this dir false)) /\
  (forall this file, keeps True structure_kept (__digestPath node depth this file false)).
Proof.
  induction depth as [|depth [IHscan IHdigest]]; split; intros this path;
    try (intros w; exact I).
  - cbn [__scanDir].
    apply keeps_bind; [apply _ | apply keeps_eval, _ |]. intros names.
    apply keeps_bind; [apply _ | apply keeps_eval, _ |]. intros sorted.
    apply keeps_bind; [apply _ | |].
    + apply keeps_mapM; [apply _|]. intros file. apply IHdigest.
    + intros results. apply keeps_ret, _.
  - cbn [__digestPath].
    apply keeps_bind; [apply _ | apply keeps_eval, _ |]. intros stat.
    rewrite andb_false_r.
    destruct (isDirectory stat); [apply IHscan|].
    destruct (isFile stat); [|apply keeps_ret, _].
    apply keeps_bind; [apply _ | apply keeps_structure_resolve |]. intros refs.
    apply keeps_mapM; [apply _|]. intros c. apply keeps_structure_factory.
Qed.

Lemma flat_build depth this baseDir :
  keeps True structure_kept (__buildFromFs node depth this baseDir false).
Proof.
  destruct depth as [|depth]; [intros w; exact I|]. cbn [__buildFromFs].
  apply keeps_bind; [apply _ | | intros _; apply keeps_ret, _].
  destruct (fs_existsSync node (path_resolve node baseDir));
    [|apply keeps_structure_log].
  apply keeps_bind; [apply _ | apply flat_scan |]. intros components.
  apply keeps_forEach; [apply _|]. intros c. apply keeps_structure_register.
Qed.

Lemma constructor_appends parent w :
  constructor parent w
  = Ok (length (regs w))
       (with_regs (regs w ++ [{| _parent := parent; _collections := [];
                                 _components := [] |}]) w).
Proof. reflexivity. Qed.

(** [assemble] with a parent builds one registry and gives it no
    collection. *)
Lemma flat_assemble depth parent componentDir cwd :
  keeps True (flat_assembled parent)
        (assemble node depth (Some parent) componentDir cwd).
Proof.
  destruct depth as [|depth]; [intros w; exact I|]. cbn [assemble].
  intros w. unfold bind. rewrite constructor_appends.
  match goal with |- context [__buildFromFs node depth ?t ?b ?c ?w0] =>
    replace c with false
      by (symmetry; apply negb_false_iff, bool_decide_eq_true_2; eauto);
    pose proof (flat_build depth t b w0) as H;
    destruct (__buildFromFs node depth t b false w0) as [r w'|e w'|]; [| |exact I]
  end.
  all: destruct H as [Hlen H]; simpl in Hlen; rewrite length_app in Hlen;
    simpl in Hlen.
  all: split; [lia|]; split.
  all: try (intros l n Hn; apply H; simpl; now apply lookup_app_l_Some).
  all: destruct (H (length (regs w))
                   {| _parent := Some parent; _collections := []; _components := [] |})
         as (n' & Hn' & Hp & Hc);
    [simpl; rewrite lookup_app_r, Nat.sub_diag by lia; reflexivity|];
    exists n'; auto.
Qed.

Lemma __buildFromFs_returns_this depth this baseDir withCollections w r w' :
  __buildFromFs node depth this baseDir withCollections w = Ok r w' -> r = this.
Proof.
  destruct depth as [|depth]; [discriminate|]. cbn [__buildFromFs].
  unfold bind at 1.
  match goal with |- context [match ?m w with _ => _ end] => destruct (m w) end;
    try discriminate.
  unfold ret. now intros [= <- _].
Qed.

Lemma assemble_returns_new depth parent componentDir cwd w r w' :
  assemble node depth parent componentDir cwd w = Ok r w' -> r = length (regs w).
Proof.
  destruct depth as [|depth]; [discriminate|]. cbn [assemble].
  unfold bind. rewrite constructor_appends.
  apply __buildFromFs_returns_this.
Qed.

Lemma map_set_In {V} (k : value) (v : V) (m : JSMap V) kc :
  In kc (map_set k v m) -> In kc m \/ kc = (k, v).
Proof.
  induction m as [|[k' v'] m IH]; simpl.
  - intros [<-|[]]. now right.
  - destruct (decide (k' = k)) as [->|Hne]; simpl.
    + intros [<-|H]; [now right | left; now right].
    + intros [<-|H]; [left; now left|].
      destruct (IH H) as [?|?]; [left; now right | now right].
Qed.

(** [_addCollection] adds one registry without collections and makes it
    a collection of [this]. *)
Lemma collecting_addCollection depth this subdir :
  keeps True (collecting this) (_addCollection node depth this subdir).
Proof.
  destruct depth as [|depth]; [intros w; exact I|]. cbn [_addCollection].
  intros w. unfold bind.
  pose proof (flat_assemble depth this subdir (process_cwd node) w) as H.
  pose proof (assemble_returns_new depth (Some this) subdir (process_cwd node) w)
    as Hchild.
  destruct (assemble node depth (Some this) subdir (process_cwd node) w)
    as [child w1|e w1|]; [| |exact I].
  - destruct H as (Hlen & Hold & nc & Hnc & Hcc & Hcp).
    unfold _collections_set. intros Hthis. simpl regs.
    rewrite length_alter. split; [lia|]. split.
    + intros l n Hn. destruct (Hold l n Hn) as (n1 & Hn1 & Hp1 & Hc1).
      destruct (decide (l = this)) as [->|Hne].
      * rewrite list_lookup_alter_eq, Hn1. simpl. eexists. split; [reflexivity|].
        simpl. split; [assumption|]. split; [congruence|].
        intros _ kc Hkc. apply map_set_In in Hkc as [Hkc| ->].
        -- left. congruence.
        -- right. simpl. rewrite (Hchild child w1 eq_refl). lia.
      * rewrite list_lookup_alter_ne by congruence. exists n1.
        split; [assumption|]. split; [assumption|]. split; [auto|].
        intros ->. contradiction.
    + intros l n' Hl Hn'. rewrite list_lookup_alter_ne in Hn' by lia.
      assert (l = length (regs w)) as -> by (apply lookup_lt_Some in Hn'; lia).
      rewrite Hnc in Hn'. injection Hn' as <-. auto.
  - destruct H as (Hlen & Hold & nc & Hnc & Hcc & Hcp).
    intros Hthis. split; [lia|]. split.
    + intros l n Hn. destruct (Hold l n Hn) as (n1 & Hn1 & Hp1 & Hc1).
      exists n1. split; [assumption|]. split; [assumption|]. split; [auto|].
      intros _ kc Hkc. left. congruence.
    + intros l n' Hl Hn'.
      assert (l = length (regs w)) as -> by (apply lookup_lt_Some in Hn'; lia).
      rewrite Hnc in Hn'. injection Hn' as <-. auto.
Qed.
Lemma collecting_digest depth this filePath :
  keeps True (collecting this) (__digestPath node depth this filePath true).
Proof.
  destruct depth as [|depth]; [intros w; exact I|]. cbn [__digestPath].
  apply keeps_bind; [apply _ | apply keeps_eval, _ |]. intros stat.
  rewrite andb_true_r. destruct (isDirectory stat).
  - apply keeps_bind; [apply _ | apply collecting_addCollection |].
    intros _. apply keeps_ret, _.
  - apply (keeps_impl _ structure_kept); [apply structure_kept_collecting|].
    destruct (isFile stat); [|apply keeps_ret, _].
    apply keeps_bind; [apply _ | apply keeps_structure_resolve |]. intros refs.
    apply keeps_mapM; [apply _|]. intros c. apply keeps_structure_factory.
Qed.

Lemma collecting_scan depth this dir :
  keeps True (collecting this) (__scanDir node depth this dir true).
Proof.
  destruct depth as [|depth]; [intros w; exact I|]. cbn [__scanDir].
  apply keeps_bind; [apply _ | apply keeps_eval, _ |]. intros names.
  apply keeps_bind; [apply _ | apply keeps_eval, _ |]. intros sorted.
  apply keeps_bind; [apply _ | |].
  - apply keeps_mapM; [apply _|]. intros file. apply collecting_digest.
  - intros results. apply keeps_ret, _.
Qed.

Lemma collecting_build depth this baseDir :
  keeps True (collecting this) (__buildFromFs node depth this baseDir true).
Proof.
  destruct depth as [|depth]; [intros w; exact I|]. cbn [__buildFromFs].
  apply keeps_bind; [apply _ | | intros _; apply keeps_ret, _].
  destruct (fs_existsSync node (path_resolve node baseDir)).
  - apply keeps_bind; [apply _ | apply collecting_scan |]. intros components.
    apply (keeps_impl _ structure_kept); [apply structure_kept_collecting|].
    apply keeps_forEach; [apply _|]. intros c. apply keeps_structure_register.
  - apply (keeps_impl _ structure_kept); [apply structure_kept_collecting|].
    apply keeps_structure_log.
Qed.

(** [__buildFromItems] adds no registry and no collection. *)
Lemma flat_items depth this list_ baseDir :
  keeps True structure_kept (__buildFromItems node depth this list_ baseDir).
Proof.
  unfold __buildFromItems.
  apply keeps_bind; [apply _ | |].
  - apply keeps_mapM; [apply _|]. intros item.
    apply keeps_bind; [apply _ | apply keeps_eval, _ |]. intros [|].
    + apply keeps_bind; [apply _ | apply keeps_structure_factory |].
      intros c. apply keeps_ret, _.
    + apply keeps_bind; [apply _ | apply keeps_eval, _ |]. intros ty.
      destruct (String.eqb ty "object").
      * apply keeps_bind; [apply _ | apply keeps_eval, _ |]. intros values.
        apply keeps_bind; [apply _ | apply keeps_eval, _ |]. intros refs.
        apply keeps_bind; [apply _ | |].
        -- apply keeps_mapM; [apply _|]. intros c. apply keeps_structure_factory.
        -- intros cs. apply keeps_ret, _.
      * destruct (String.eqb ty "string"); [|apply keeps_ret, _].
        destruct item; try apply keeps_ret, _.
        apply keeps_bind; [apply _ | apply flat_scan |].
        intros cs. apply keeps_ret, _.
  - intros results.
    apply keeps_bind; [apply _ | | intros _; apply keeps_ret, _].
    apply keeps_forEach; [apply _|]. intros c. apply keeps_structure_register.
Qed.

Lemma __buildFromItems_returns_this depth this list_ baseDir w r w' :
  __buildFromItems node depth this list_ baseDir w = Ok r w' -> r = this.
Proof.
  unfold __buildFromItems. unfold bind at 1.
  match goal with |- context [match ?m w with _ => _ end] => destruct (m w) end;
    try discriminate.
  unfold bind at 1.
  match goal with |- context [match ?m ?w0 with _ => _ end] => destruct (m w0) end;
    try discriminate.
  unfold ret. now intros [= <- _].
Qed.
End hierarchy.

(** C2: in a registry built by [assemble], every registry stored in the
    collections has no collections of its own and has the registry as
    parent; with a parent given, the registry built has no collections at
    all; and a registry built by [create] has none.  So the hierarchy is at
    most two levels deep. *)
Theorem collections_are_flat (node : Node) (depth : nat) (w w' : World) (r : rid) :
  (forall parent componentDir cwd,
     assemble node depth parent componentDir cwd w = Ok r w' ->
     exists n, regs w' !! r = Some n /\
       (is_Some parent -> _collections n = []) /\
       forall k child, In (k, child) (_collections n) ->
         exists nc, regs w' !! child = Some nc /\
                    _collections nc = [] /\ _parent nc = Some r) /\
  (forall components cwd,
     create node depth components cwd w = Ok r w' ->
     exists n, regs w' !! r = Some n /\ _collections n = []).
Proof.
  split.
  - intros parent componentDir cwd Hrun.
    pose proof (assemble_returns_new node _ _ _ _ _ _ _ Hrun) as ->.
    destruct parent as [p|].
    + pose proof (flat_assemble node depth p componentDir cwd w) as H.
      rewrite Hrun in H. destruct H as (_ & _ & n & Hn & Hc & _).
      exists n. split; [assumption|]. split; [auto|].
      intros k child Hin. rewrite Hc in Hin. destruct Hin.
    + destruct depth as [|depth]; [discriminate|]. cbn [assemble] in Hrun.
      unfold bind in Hrun. rewrite constructor_appends in Hrun.
      match type of Hrun with __buildFromFs _ _ ?t ?b ?c ?w0 = _ =>
        change c with true in Hrun;
        pose proof (collecting_build node depth t b w0) as H
      end.
      rewrite Hrun in H. unfold collecting in H. simpl regs in H.
      rewrite length_app in H. simpl length in H.
      destruct H as (Hlen & Hold & Hnew); [lia|].
      destruct (Hold (length (regs w))
                  {| _parent := None; _collections := []; _components := [] |})
        as (n & Hn & _ & _ & Hthis).
      { rewrite lookup_app_r, Nat.sub_diag by lia. reflexivity. }
      exists n. split; [assumption|]. split; [intros [? [=]]|].
      intros k child Hin. destruct (Hthis eq_refl _ Hin) as [[]|Hchild].
      simpl in Hchild.
      destruct (lookup_lt_is_Some_2 (regs w') child ltac:(lia)) as [nc Hnc].
      exists nc. split; [assumption|]. apply (Hnew child nc); [lia | assumption].
  - intros components cwd Hrun. unfold create, bind in Hrun.
    rewrite constructor_appends in Hrun.
    pose proof (__buildFromItems_returns_this node _ _ _ _ _ _ _ Hrun) as ->.
    match type of Hrun with __buildFromItems _ _ ?t ?l ?b ?w0 = _ =>
      pose proof (flat_items node depth t l b w0) as H
    end.
    rewrite Hrun in H. destruct H as [_ H].
    destruct (H (length (regs w))
                {| _parent := None; _collections := []; _components := [] |})
      as (n & Hn & _ & Hc).
    { simpl. rewrite lookup_app_r, Nat.sub_diag by lia. reflexivity. }
    exists n. split; assumption.
Qed.

Lemma collections_are_flat_witness :
  exists w' n,
    assemble Sample.node 11 None "components" "/srv" Sample.world = Ok 0 w' /\
    regs w' !! 0 = Some n /\
    map_keys (_collections n) = [VStr "sub2"; VStr "sub1"] /\
    forall k child, In (k, child) (_collections n) ->
      exists nc, regs w' !! child = Some nc /\
                 _collections nc = [] /\ _parent nc = Some 0.
Proof.
  eexists _, _. split; [vm_compute; reflexivity|]. split; [reflexivity|].
  split; [reflexivity|].
  destruct (proj1 (collections_are_flat Sample.node 11 Sample.world _ 0)
              None "components" "/srv" ltac:(vm_compute; reflexivity))
    as (n & Hn & _ & Hflat).
  injection Hn as <-. exact Hflat.
Defined.

(** ** More depth changes no result *)

Lemma at_least_refl {A} (m : M A) : at_least m m.
Proof. intros w _. reflexivity. Qed.

Lemma at_least_bind {A B} (m m' : M A) (k k' : A -> M B) :
  at_least m m' -> (forall a, at_least (k a) (k' a)) ->
  at_least (bind m k) (bind m' k').
Proof.
  intros Hm Hk w. unfold bind. specialize (Hm w).
  destruct (m w) as [a w1|e w1|]; intros H; try (now destruct H);
    rewrite Hm by discriminate; [now apply Hk | reflexivity].
Qed.

Lemma at_least_mapM {A B} (f f' : A -> M B) (l : list A) :
  (forall a, at_least (f a) (f' a)) -> at_least (mapM f l) (mapM f' l).
Proof.
  intros Hf. induction l as [|a l IH]; simpl; [apply at_least_refl|].
  apply at_least_bind; [apply Hf|]. intros b.
  apply at_least_bind; [apply IH|]. intros bs. apply at_least_refl.
Qed.

Section depth.
Variable node : Node.

Lemma more_depth depth :
  (forall this baseDir wc,
     at_least (__buildFromFs node depth this baseDir wc)
              (__buildFromFs node (S depth) this baseDir wc)) /\
  (forall this dir wc,
     at_least (__scanDir node depth this dir wc)
              (__scanDir node (S depth) this dir wc)) /\
  (forall this filePath wc,
     at_least (__digestPath node depth this filePath wc)
              (__digestPath node (S depth) this filePath wc)) /\
  (forall this subdir,
     at_least (_addCollection node depth this subdir)
              (_addCollection node (S depth) this subdir)) /\
  (forall parent componentDir cwd,
     at_least (assemble node depth parent componentDir cwd)
              (assemble node (S depth) parent componentDir cwd)).
Proof.
  induction depth as [|depth (IHbuild & IHscan & IHdigest & IHadd & IHassemble)];
    [repeat split; intros; intros w H; now destruct H|].
  repeat split.
  - intros this baseDir wc.
    cbn [__buildFromFs].
    apply at_least_bind; [|intros; apply at_least_refl].
    destruct (fs_existsSync node (path_resolve node baseDir)); [|apply at_least_refl].
    apply at_least_bind; [apply IHscan | intros; apply at_least_refl].
  - intros this dir wc.
    cbn [__scanDir].
    apply at_least_bind; [apply at_least_refl|]. intros names.
    apply at_least_bind; [apply at_least_refl|]. intros sorted.
    apply at_least_bind; [|intros; apply at_least_refl].
    apply at_least_mapM. intros file. apply IHdigest.
  - intros this filePath wc.
    cbn [__digestPath].
    apply at_least_bind; [apply at_least_refl|]. intros stat.
    destruct (isDirectory stat && wc).
    + apply at_least_bind; [apply IHadd | intros; apply at_least_refl].
    + destruct (isDirectory stat); [apply IHscan | apply at_least_refl].
  - intros this subdir.
    cbn [_addCollection].
    apply at_least_bind; [apply IHassemble | intros; apply at_least_refl].
  - intros parent componentDir cwd.
    cbn [assemble].
    apply at_least_bind; [apply at_least_refl | intros; apply IHbuild].
Qed.

(** A result of [assemble] is its result at every greater depth. *)
Lemma assemble_more_depth depth depth' parent componentDir cwd w :
  depth <= depth' ->
  assemble node depth parent componentDir cwd w <> OutOfDepth ->
  assemble node depth' parent componentDir cwd w
  = assemble node depth parent componentDir cwd w.
Proof.
  induction 1 as [|depth' Hle IH]; intros Hres; [reflexivity|].
  rewrite <- (IH Hres).
  apply (proj2 (proj2 (proj2 (proj2 (more_depth depth'))))).
  now rewrite (IH Hres).
Qed.
End depth.

(** * Further properties *)

(** ** The capability test and the factory *)

Lemma get_throws h v k :
  (exists e, get h v k = Exn e) <-> v = VUndefined \/ v = VNull.
Proof.
  destruct v as [| | | | |l]; simpl;
    try solve [split; [intros _; auto | intros _; eauto]];
    try solve [split; [intros [e He]; discriminate He | intros [?|?]; discriminate]].
  split; [|intros [?|?]; discriminate]. intros [e He]. exfalso.
  destruct (h !! l) as [o|]; [|discriminate].
  destruct (assoc k (own o)); [discriminate|].
  destruct (callable o); [destruct (String.eqb k "prototype")|]; discriminate.
Qed.

Lemma get_returns h v k :
  v <> VUndefined -> v <> VNull -> exists x, get h v k = Val x.
Proof.
  intros Hu Hn. destruct (get h v k) as [x|e] eqn:E; [eauto|].
  destruct (proj1 (get_throws h v k) (ex_intro _ e E)); contradiction.
Qed.

(** X1: the capability test throws on [null] and on a function whose
    [prototype] is [undefined] or [null], and on nothing else. *)
Theorem isComponent_throws_exactly (h : Heap) (ref : value) :
  (exists e, registry.isComponent h ref = Exn e) <->
  ref = VNull \/
  (isType h ref = true /\
   (get h ref "prototype" = Val VUndefined \/ get h ref "prototype" = Val VNull)).
Proof.
  unfold registry.isComponent.
  destruct (isType h ref) eqn:Htype.
  - assert (Hobj : String.eqb (typeof h ref) "object" = false).
    { unfold isType in Htype. apply String.eqb_eq in Htype. now rewrite Htype. }
    assert (Href : ref <> VUndefined /\ ref <> VNull)
      by (split; intros ->; discriminate).
    destruct (get_returns h ref "prototype") as [p Hp]; [tauto..|].
    rewrite Hp. cbn [res_bind].
    destruct (decide (p = VUndefined \/ p = VNull)) as [Hnullish|Hobject].
    + destruct (proj2 (get_throws h p "metadata") Hnullish) as [e ->].
      cbn [res_bind]. split; [intros _; right; split; [reflexivity|] | eauto].
      destruct Hnullish as [-> | ->]; auto.
    + destruct (get_returns h p "metadata") as [m ->]; [tauto..|].
      destruct (get_returns h p "invoke") as [i ->]; [tauto..|].
      cbn [res_bind]. rewrite Hobj.
      split.
      * intros [e He]. destruct (isType h m); cbn [res_bind] in He;
          [destruct (isType h i)|]; discriminate He.
      * intros [->|[_ [[= ->]|[= ->]]]]; [tauto | exfalso; auto..].
  - cbn [res_bind]. split.
    + intros [e He]. left.
      destruct (decide (ref = VUndefined \/ ref = VNull)) as [[-> | ->]|Hobject];
        [discriminate He | reflexivity |].
      destruct (String.eqb (typeof h ref) "object"); [|discriminate He].
      exfalso.
      destruct (get_returns h ref "metadata") as [m Hm]; [tauto..|].
      destruct (get_returns h ref "invoke") as [i Hi]; [tauto..|].
      rewrite Hm in He. cbn [res_bind] in He.
      destruct (isType h m); [|discriminate He].
      rewrite Hi in He. discriminate He.
    + intros [->|[? _]]; [eauto | discriminate].
Qed.

Lemma isComponent_legacy h ref :
  registry.isComponent h ref = Val true -> isType h ref = false ->
  exists l o, ref = VRef l /\ h !! l = Some o /\ callable o = None.
Proof.
  intros Hc Htype. unfold registry.isComponent in Hc. rewrite Htype in Hc.
  cbn [res_bind] in Hc. destruct ref as [| | | | |l]; try discriminate Hc.
  unfold isType, typeof, func_at in Htype.
  destruct (h !! l) as [o|] eqn:Ho.
  - destruct (callable o) eqn:Hcall; [discriminate Htype|]. exists l, o. auto.
  - exfalso. unfold typeof, func_at, get in Hc. rewrite Ho in Hc.
    discriminate Hc.
Qed.

Lemma isType_callable h ref :
  isType h ref = true ->
  exists l o f, ref = VRef l /\ h !! l = Some o /\ callable o = Some f.
Proof.
  unfold isType, typeof, func_at. intros H.
  destruct ref as [| | | | |l]; try discriminate H.
  destruct (h !! l) as [o|] eqn:Ho; [|discriminate H].
  destruct (callable o) as [f|] eqn:Hf; [|discriminate H].
  exists l, o, f. auto.
Qed.

(** X2: the factory returns a legacy component itself and allocates
    nothing; for a type it allocates one object, the instance; and the
    factory applied to what it returned returns it again. *)
Theorem __componentFactory_instance (this : rid) (mod_ inst : value) (w w' : World) :
  registry.isComponent (objs w) mod_ = Val true ->
  __componentFactory this mod_ w = Ok inst w' ->
  (if isType (objs w) mod_
   then inst = VRef (length (objs w)) /\
        exists o, objs w' = objs w ++ [o] /\ callable o = None
   else inst = mod_ /\ w' = w) /\
  regs w' = regs w /\ logged w' = logged w /\
  __componentFactory this inst w' = Ok inst w'.
Proof.
  intros Hc Hrun. unfold __componentFactory, alloc, makeCtor in *.
  destruct (isType (objs w) mod_) eqn:Htype.
  - destruct (isType_callable _ _ Htype) as (l & o & f & -> & Ho & Hf).
    unfold new_, func_at in Hrun. rewrite Ho, Hf in Hrun.
    destruct (fn_new f) as [fields|e]; [|discriminate].
    injection Hrun as <- <-. simpl.
    split; [split; [reflexivity | eauto]|]. split; [reflexivity|].
    split; [reflexivity|].
    unfold isType, typeof, func_at.
    rewrite lookup_app_r, Nat.sub_diag by lia. simpl.
    unfold with_objs. reflexivity.
  - destruct (isComponent_legacy _ _ Hc Htype) as (l & o & -> & Ho & Hcall).
    simpl in Hrun. injection Hrun as <- <-.
    assert (Hw : with_objs (objs w) w = w) by now destruct w.
    rewrite Hw. split; [now split|]. split; [reflexivity|]. split; [reflexivity|].
    rewrite Htype. simpl. now rewrite Hw.
Qed.

Lemma __componentFactory_instance_witness :
  __componentFactory 0 Sample.legacy Sample.world1 = Ok Sample.legacy Sample.world1 /\
  exists w', __componentFactory 0 Sample.HelloWorld Sample.world1 = Ok (VRef 20) w' /\
             __componentFactory 0 (VRef 20) w' = Ok (VRef 20) w'.
Proof.
  split; [reflexivity|]. eexists. split; [reflexivity|].
  apply (__componentFactory_instance 0 Sample.HelloWorld (VRef 20) Sample.world1 _
           eq_refl eq_refl).
Defined.

(** ** The module resolver *)

(** X3: the resolver never throws.  Whatever the load, the capability test
    or [Object.values] do, it returns; it writes nothing but at most one
    entry of the log, and when it logs it returns the empty sequence. *)
Theorem __resolveComponents_never_throws (node : Node) (this : rid)
    (filePath : string) (w : World) :
  exists refs,
    (__resolveComponents node this filePath w = Ok refs w) \/
    (refs = [] /\ exists e,
       __resolveComponents node this filePath w
       = Ok [] (with_logged (logged w ++ [Error_exception e]) w)).
Proof.
  unfold __resolveComponents. unfold_M.
  destruct (require node filePath) as [exported|e]; [|exists []; right; eauto].
  destruct (registry.isComponent (objs w) exported) as [[|]|e];
    [exists [exported]; now left | | exists []; right; eauto].
  destruct (Object_values (objs w) exported) as [values|e];
    [|exists []; right; eauto].
  destruct (filter_res (registry.isComponent (objs w)) values) as [refs|e];
    [exists refs; now left | exists []; right; eauto].
Qed.

(** ** Paths given to [create] *)

Section create_path.
Variable node : Node.
Variables (item cwd : string) (w : World).

Let this := length (regs w).
Let w0 :=
  with_regs (regs w ++ [{| _parent := None; _collections := []; _components := [] |}]) w.
Let path := fullPath node cwd item.

Lemma create_string depth :
  create node depth [VStr item] cwd w
  = bind (__digestPath node depth this path false)
         (fun cs => bind (forEach (fun c => __register this c) cs)
                         (fun _ => ret this)) w0.
Proof.
  unfold create, bind at 1. rewrite constructor_appends. fold this w0.
  unfold __buildFromItems. cbn [mapM]. unfold bind at 1 2 3. unfold eval at 1.
  cbn [registry.isComponent isType typeof String.eqb Ascii.eqb Bool.eqb res_bind].
  unfold bind at 1. unfold eval at 1.
  cbn [typeof String.eqb Ascii.eqb Bool.eqb]. fold path.
  unfold bind at 1 4.
  destruct (__digestPath node depth this path false w0) as [cs w1|e w1|];
    [|reflexivity..].
  destruct cs as [|c cs]; unfold_M; simpl; rewrite ?app_nil_r; reflexivity.
Qed.

(** X4: a path that exists neither as it is nor with [.js] appended makes
    [create] throw what [fs.statSync] throws; nothing is logged and the
    registry under construction is left empty. *)
Theorem create_missing_path_throws (depth : nat) (e : exn) :
  fs_existsSync node path = false ->
  fs_statSync node (String.append path ".js") = Exn e ->
  create node (S depth) [VStr item] cwd w = Throw e w0.
Proof.
  intros Hexists Hstat. rewrite create_string. unfold bind at 1.
  cbn [__digestPath]. rewrite Hexists. unfold bind, eval. now rewrite Hstat.
Qed.

(** X5: a path without its [.js] extension is resolved to the file with the
    extension, and the component the file exports is registered. *)
Theorem create_appends_js (depth : nat) (exported instance name : value)
    (h' : Heap) :
  fs_existsSync node path = false ->
  fs_statSync node (String.append path ".js") = Val file_stats ->
  require node (String.append path ".js") = Returns exported ->
  registry.isComponent (objs w) exported = Val true ->
  new_ (makeCtor (objs w) exported) (objs w) = Val (instance, h') ->
  name_of h' instance = Val name ->
  create node (S depth) [VStr item] cwd w
  = Ok this {| objs := h';
               regs := regs w ++ [{| _parent := None;
                                     _collections := [];
                                     _components := [(name, instance)] |}];
               logged := logged w |}.
Proof.
  intros Hexists Hstat Hload Hc Hnew Hname. rewrite create_string.
  unfold bind at 1. cbn [__digestPath]. rewrite Hexists.
  unfold bind at 1. unfold eval at 1. rewrite Hstat.
  cbn [file_stats isDirectory isFile andb]. unfold bind at 1.
  rewrite (__resolveComponents_direct node this _ w0 exported Hload Hc).
  cbn [mapM]. unfold __componentFactory. unfold bind at 1 2. unfold alloc at 1.
  change (objs w0) with (objs w). rewrite Hnew. unfold ret at 1 2.
  cbn [forEach]. unfold bind at 1 2.
  rewrite (__register_fresh _ instance name _
             {| _parent := None; _collections := []; _components := [] |}).
  - unfold registered. simpl regs. subst this.
    rewrite lookup_app_r, Nat.sub_diag by lia. simpl.
    unfold ret, with_regs. simpl. f_equal. f_equal.
    rewrite insert_app_r_alt, Nat.sub_diag by lia. reflexivity.
  - simpl. subst this. rewrite lookup_app_r, Nat.sub_diag by lia. reflexivity.
  - exact Hname.
  - reflexivity.
Qed.
End create_path.

Lemma create_missing_path_throws_witness :
  create Sample.node 1 [VStr "nowhere"] "/srv" Sample.world
  = Throw (ENOENT "/srv/nowhere.js")
          (with_regs [{| _parent := None; _collections := []; _components := [] |}]
                     Sample.world).
Proof.
  apply (create_missing_path_throws Sample.node "nowhere" "/srv" Sample.world 0);
    reflexivity.
Defined.

Lemma create_appends_js_witness :
  create Sample.node 1 [VStr "components/hello"] "/srv" Sample.world
  = Ok 0 {| objs := Sample.heap ++ [Sample.prototype [("metadata", VRef 2);
                                                        ("invoke", VRef 3);
                                                        ("constructor", VRef 5)]];
            regs := [{| _parent := None;
                        _collections := [];
                        _components := [(VStr "hello.world", VRef 20)] |}];
            logged := [] |}.
Proof.
  apply (create_appends_js Sample.node "components/hello" "/srv" Sample.world 0
           Sample.HelloWorld (VRef 20) (VStr "hello.world")); reflexivity.
Defined.

(** ** Directories *)

Lemma filter_none {A} (p : A -> bool) (l : list A) :
  Forall (fun a => p a = false) l -> List.filter p l = [].
Proof.
  induction 1 as [|a l Ha _ IH]; simpl; [reflexivity|]. now rewrite Ha.
Qed.

(** X6: a directory that holds nothing but entries with another extension
    than [.js] or none assembles to a registry without components and
    without collections; nothing is logged, and the registry is not
    valid. *)
Theorem assemble_nothing_to_scan (node : Node) (depth : nat) (parent : option rid)
    (componentDir cwd : string) (names : list string) (w : World) :
  let dir := path_resolve node (fullPath node cwd componentDir) in
  let w' :=
    with_regs (regs w ++ [{| _parent := parent; _collections := [];
                             _components := [] |}]) w in
  sort_permutes node ->
  fs_existsSync node dir = true ->
  fs_readdirSync node dir = Val names ->
  Forall (fun name => scanned node name = false) names ->
  3 <= depth ->
  assemble node depth parent componentDir cwd w = Ok (length (regs w)) w' /\
  isValid (length (regs w)) w' = Ok false w'.
Proof.
  intros dir w' Hsort Hdir Hreaddir Hnames Hdepth.
  destruct depth as [|[|[|depth]]]; try lia.
  split.
  - cbn [assemble]. unfold bind at 1. rewrite constructor_appends. fold w'.
    cbn [__buildFromFs]. fold dir. rewrite Hdir.
    unfold bind at 1 2. cbn [__scanDir].
    unfold bind at 1. unfold eval at 1. rewrite Hreaddir.
    change (fun name => truthy_num (Z.lnot (array_indexOf [""; ".js"]
                                              (path_extname node name))))
      with (scanned node).
    rewrite (filter_none _ _ Hnames). cbn [map].
    destruct (Hsort (fun a b => res_bind (fs_statSync node a)
                                  (fun st => Val (if isDirectory st then 1 else 0)%Z))
                    []) as (sorted & Hsorted & Hperm); [intros a b []|].
    apply Permutation_nil in Hperm. subst sorted.
    unfold bind at 1. unfold eval at 1. rewrite Hsorted. reflexivity.
  - unfold isValid. unfold_M. simpl regs.
    rewrite lookup_app_r, Nat.sub_diag by lia. reflexivity.
Qed.

Lemma assemble_nothing_to_scan_witness :
  assemble Sample.node 3 None "components/sub2" "/srv" Sample.world
  = Ok 0 (with_regs [{| _parent := None; _collections := []; _components := [] |}]
                    Sample.world).
Proof.
  apply (assemble_nothing_to_scan Sample.node 3 None "components/sub2" "/srv" []
           Sample.world sample_sort_permutes); try reflexivity; constructor.
Defined.

(** X7: [_addCollection] resolves the subdirectory against the working
    directory of the process, not against the directory [assemble] was
    given.  A subdirectory path that does not contain the working directory
    of the process is joined to it; when nothing is there, the collection is
    still made, empty, under the base name of the subdirectory, parent
    [this], and the error is logged. *)
Theorem _addCollection_outside_process_cwd (node : Node) (depth : nat)
    (this : rid) (subdir : string) (w : World) :
  let moved := path_join node (process_cwd node) subdir in
  indexOf subdir (process_cwd node) = (-1)%Z ->
  fs_existsSync node (path_resolve node moved) = false ->
  3 <= depth ->
  _addCollection node depth this subdir w
  = Ok tt
       {| objs := objs w;
          regs := alter (fun n =>
                           {| _parent := _parent n;
                              _collections :=
                                map_set (VStr (path_basename node subdir))
                                        (length (regs w)) (_collections n);
                              _components := _components n |})
                        this
                        (regs w ++ [{| _parent := Some this; _collections := [];
                                       _components := [] |}]);
          logged := logged w ++ [Error_invalid_component_directory moved] |}.
Proof.
  intros moved Hout Hmissing Hdepth.
  destruct depth as [|[|[|depth]]]; try lia.
  cbn [_addCollection assemble]. unfold bind at 1 2. rewrite constructor_appends.
  cbn [__buildFromFs]. rewrite (fullPath_joins node _ _ Hout). fold moved.
  rewrite Hmissing. reflexivity.
Qed.

Lemma _addCollection_outside_process_cwd_witness :
  exists w',
    _addCollection Sample.node 3 0 "/app/vendor" Sample.world1 = Ok tt w' /\
    regs w' = [{| _parent := None; _collections := [(VStr "vendor", 1)];
                  _components := [] |};
               {| _parent := Some 0; _collections := []; _components := [] |}] /\
    logged w' = [Error_invalid_component_directory "/srv//app/vendor"].
Proof.
  eexists. split.
  - apply (_addCollection_outside_process_cwd Sample.node 3 0 "/app/vendor"
             Sample.world1); [reflexivity | reflexivity | lia].
  - split; reflexivity.
Defined.

(** ** Items given to [create] *)

(** ** Items given to [create] *)

(** X8: [create] on a list of items that are neither components, objects
    nor strings (the empty list among them) returns a registry without
    components and collections, which is not valid; it logs nothing. *)
Theorem create_passes_over (node : Node) (depth : nat) (items : list value)
    (cwd : string) (w : World) :
  let w' :=
    with_regs (regs w ++ [{| _parent := None; _collections := [];
                             _components := [] |}]) w in
  Forall (passed_over (objs w)) items ->
  create node depth items cwd w = Ok (length (regs w)) w' /\
  isValid (length (regs w)) w' = Ok false w'.
Proof.
  intros w' Hitems. split.
  - unfold create, bind at 1. rewrite constructor_appends. fold w'.
    unfold __buildFromItems. unfold bind at 1.
    match goal with |- context [mapM ?f items w'] =>
      assert (Hmap : mapM f items w' = Ok (map (fun _ => None) items) w')
    end.
    { induction Hitems as [|item items (Hc & Hobj & Hstr) _ IH]; [reflexivity|].
      cbn [mapM]. unfold bind at 1 2. unfold eval at 1.
      change (objs w') with (objs w). rewrite Hc.
      unfold bind at 1. unfold eval at 1. change (objs w') with (objs w).
      apply String.eqb_neq in Hobj, Hstr. rewrite Hobj, Hstr.
      unfold ret at 1. unfold bind at 1. rewrite IH. reflexivity. }
    rewrite Hmap.
    assert (Hnone : forall l : list value,
               List.filter (fun item : option (list value) =>
                              match item with
                              | Some l => truthy_num (Z.of_nat (length l))
                              | None => false
                              end) (map (fun _ => None) l) = []).
    { induction l; simpl; auto. }
    rewrite Hnone. reflexivity.
  - unfold isValid. unfold_M. simpl regs.
    rewrite lookup_app_r, Nat.sub_diag by lia. reflexivity.
Qed.

Lemma create_passes_over_witness :
  create Sample.node 0 [VNum 3; VUndefined; VBool true] "/srv" Sample.world
  = Ok 0 (with_regs [{| _parent := None; _collections := []; _components := [] |}]
                    Sample.world).
Proof.
  apply (create_passes_over Sample.node 0 [VNum 3; VUndefined; VBool true] "/srv"
           Sample.world).
  repeat constructor; discriminate.
Defined.

(** X9: passing the capability test does not make a value registrable.
    When [metadata()] of the instance returns [undefined] or [null], the
    read of its [name] throws and [create] throws with it, after the instance
    was made and before anything is registered or logged. *)
Theorem create_throws_without_descriptor (node : Node) (depth : nat)
    (item instance m : value) (cwd : string) (w : World) (h' : Heap) :
  registry.isComponent (objs w) item = Val true ->
  new_ (makeCtor (objs w) item) (objs w) = Val (instance, h') ->
  call_method h' instance "metadata" = Val m ->
  m = VUndefined \/ m = VNull ->
  exists e,
    create node depth [item] cwd w
    = Throw e {| objs := h';
                 regs := regs w ++ [{| _parent := None; _collections := [];
                                       _components := [] |}];
                 logged := logged w |}.
Proof.
  intros Hc Hnew Hcall Hm.
  destruct (proj2 (get_throws h' m "name") Hm) as [e He].
  exists e. unfold create, __buildFromItems, __componentFactory, constructor.
  cbn [mapM]. unfold_M. simpl objs. rewrite Hc. cbv beta iota. simpl objs.
  rewrite Hnew. simpl. unfold __register. unfold_M. simpl objs.
  rewrite Hcall. cbv beta iota. simpl objs. rewrite He. reflexivity.
Qed.

Lemma create_throws_without_descriptor_witness :
  exists e,
    create Sample.node 0 [VRef 20] "/srv"
      (with_objs (Sample.heap ++ [Sample.object [("metadata", VRef 3);
                                                  ("invoke", VRef 3)]])
                 Sample.world)
    = Throw e {| objs := Sample.heap ++ [Sample.object [("metadata", VRef 3);
                                                         ("invoke", VRef 3)]];
                 regs := [{| _parent := None; _collections := [];
                             _components := [] |}];
                 logged := [] |}.
Proof.
  apply (create_throws_without_descriptor Sample.node 0 (VRef 20) (VRef 20)
           VUndefined "/srv"
           (with_objs (Sample.heap ++ [Sample.object [("metadata", VRef 3);
                                                       ("invoke", VRef 3)]])
                      Sample.world));
    try reflexivity. now left.
Defined.

(** ** Lookups *)

Lemma map_get_keys {V} (k : value) (m : JSMap V) :
  is_Some (map_get k m) <-> In k (map_keys m).
Proof.
  induction m as [|[k' v] m IH]; simpl.
  - split; [intros [? [=]] | intros []].
  - destruct (decide (k' = k)) as [->|Hne].
    + split; [now left | eauto].
    + rewrite IH. split; [now right | intros [?|?]; [contradiction | assumption]].
Qed.

(** X10: the lookups of a registry agree.  [isCollection] holds of exactly
    the names [getCollectionNames] lists, and of a truthy name exactly when
    [getRegistry] returns a registry; [isComponent] holds of a name exactly
    when [getComponent] returns the component kept under it, and
    [getComponent] returns [undefined] otherwise. *)
Theorem lookups_agree (this : rid) (w : World) (n : RegistryNode) (k : value) :
  regs w !! this = Some n ->
  exists names (collection component : bool) (c : value),
    getCollectionNames this w = Ok names w /\
    isCollection this k w = Ok collection w /\
    ComponentRegistry.isComponent this k w = Ok component w /\
    getComponent this k w = Ok c w /\
    (collection = true <-> In k names) /\
    (truthy k = true ->
     (collection = true <-> exists r, getRegistry this k w = Ok (Some r) w)) /\
    (component = true <-> map_get k (_components n) = Some c) /\
    (component = false -> c = VUndefined).
Proof.
  intros Hn.
  exists (map_keys (_collections n)), (map_has k (_collections n)),
         (map_has k (_components n)),
         (default VUndefined (map_get k (_components n))).
  unfold getCollectionNames, isCollection, ComponentRegistry.isComponent,
    getComponent, getRegistry.
  unfold_M. rewrite Hn.
  repeat (split; [reflexivity|]).
  split; [rewrite map_has_get; apply map_get_keys|].
  split.
  - intros ->. rewrite Hn, map_has_get.
    destruct (map_get k (_collections n)) as [r|]; split; eauto.
    + intros [? [=]].
    + intros [r [=]].
  - unfold map_has. destruct (map_get k (_components n)); simpl;
      (split; [split; intros H; (reflexivity || discriminate H) | ]);
      [discriminate | reflexivity].
Qed.

Lemma lookups_agree_witness :
  exists names (collection component : bool) (c : value),
    getCollectionNames 0 Sample.world3 = Ok names Sample.world3 /\
    isCollection 0 (VStr "c1") Sample.world3 = Ok collection Sample.world3 /\
    ComponentRegistry.isComponent 0 (VStr "c1") Sample.world3
    = Ok component Sample.world3 /\
    getComponent 0 (VStr "c1") Sample.world3 = Ok c Sample.world3 /\
    (collection = true <-> In (VStr "c1") names) /\
    (component = false -> c = VUndefined).
Proof.
  destruct (lookups_agree 0 Sample.world3 _ (VStr "c1") eq_refl)
    as (names & collection & component & c & H1 & H2 & H3 & H4 & H5 & _ & _ & H8).
  exists names, collection, component, c. auto 10.
Defined.

(** X11: once [__register] is over, the name of the component is
    registered and the registry is valid: whether the component was taken
    or rejected as a duplicate, and whether the rejection was logged or
    threw while the warning was made.  [__register] returns when the name
    was free or the component is typed, and throws only on a duplicate whose
    type cannot be named, changing nothing. *)
Theorem registered_makes_valid (this : rid) (component x : value) (w : World)
    (n : RegistryNode) :
  regs w !! this = Some n ->
  name_of (objs w) component = Val x ->
  exists w',
    (__register this component w = Ok tt w' \/
     exists e, __register this component w = Throw e w' /\
               constructor_name (objs w) component = Exn e /\
               map_has x (_components n) = true /\ w' = w) /\
    (map_has x (_components n) = false \/ typed (objs w) component ->
     __register this component w = Ok tt w') /\
    ComponentRegistry.isComponent this x w' = Ok true w' /\
    isValid this w' = Ok true w'.
Proof.
  intros Hn Hname. exists (registered this x component w).
  pose proof (__register_run this component x w n Hn Hname) as Hrun.
  assert (Hthis : this < length (regs w)) by (eapply lookup_lt_Some; eauto).
  split; [|split].
  - destruct (map_has x (_components n)) eqn:Hhas; [|now left].
    destruct (constructor_name (objs w) component) as [type|e] eqn:Htype;
      [now left|].
    right. exists e. split; [exact Hrun|]. split; [reflexivity|].
    split; [reflexivity|]. unfold registered. now rewrite Hn, Hhas, Htype.
  - intros [Hfree|[type Htype]].
    + now rewrite Hfree in Hrun.
    + rewrite Htype in Hrun. now destruct (map_has x (_components n)).
  - clear Hrun.
    unfold registered, ComponentRegistry.isComponent, isValid. rewrite Hn.
    destruct (map_has x (_components n)) eqn:Hhas.
    + assert (Hvalid : forall w0, regs w0 = regs w ->
                fields this w0 = Ok n w0).
      { intros w0 Hw0. unfold fields. now rewrite Hw0, Hn. }
      assert (Hsize : ((if truthy_num (map_size (_components n))
                        then map_size (_components n)
                        else map_size (_collections n)) >? 0)%Z = true).
      { apply map_has_get in Hhas as [c Hc].
        destruct (_components n); [discriminate Hc | reflexivity]. }
      destruct (constructor_name (objs w) component);
        unfold bind; rewrite Hvalid by reflexivity;
        unfold ret; now rewrite Hhas, Hsize.
    + unfold_M; simpl regs.
      rewrite list_lookup_insert_eq by exact Hthis. simpl.
      unfold map_has. rewrite map_get_app.
      apply map_has_false in Hhas. rewrite Hhas. simpl.
      destruct (decide (x = x)); [|congruence]. split; [reflexivity|].
      unfold map_size, truthy_num. rewrite length_app. simpl.
      replace (Z.of_nat (length (_components n) + 1) =? 0)%Z with false
        by (symmetry; apply Z.eqb_neq; lia).
      simpl. f_equal. apply Z.gtb_lt. lia.
Qed.

Lemma registered_makes_valid_witness :
  exists w',
    __register 0 Sample.legacy Sample.world2 = Ok tt w' /\
    logged w' = [Warn_duplicate_component (VStr "legacy") (VStr "Legacy")] /\
    ComponentRegistry.isComponent 0 (VStr "legacy") w' = Ok true w' /\
    isValid 0 w' = Ok true w'.
Proof.
  destruct (registered_makes_valid 0 Sample.legacy (VStr "legacy") Sample.world2 _
              eq_refl eq_refl)
    as (w' & _ & Hrun & Hname & Hvalid).
  exists w'. split; [|split; [|split]]; try assumption.
  - apply Hrun. right. eexists. reflexivity.
  - assert (H : __register 0 Sample.legacy Sample.world2 = Ok tt w')
      by (apply Hrun; right; eexists; reflexivity).
    vm_compute in H. injection H as <-. reflexivity.
Defined.

(** ** The legacy accessor *)

Lemma assoc_set_own_eq k v ps : assoc k (set_own k v ps) = Some v.
Proof.
  induction ps as [|[k' v'] ps IH]; simpl.
  - now rewrite String.eqb_refl.
  - destruct (String.eqb k k') eqn:E; simpl; rewrite E; [reflexivity | exact IH].
Qed.

Lemma assoc_set_own_ne k k' v ps :
  k <> k' -> assoc k' (set_own k v ps) = assoc k' ps.
Proof.
  intros Hne. induction ps as [|[k0 v0] ps IH]; simpl.
  - apply String.eqb_neq in Hne. rewrite String.eqb_sym in Hne. now rewrite Hne.
  - destruct (String.eqb k k0) eqn:E; simpl.
    + apply String.eqb_eq in E. subst k0.
      apply String.eqb_neq in Hne. rewrite String.eqb_sym in Hne. now rewrite Hne.
    + destruct (String.eqb k' k0); [reflexivity | exact IH].
Qed.

Lemma components_fold_other s (entries : JSMap value) acc :
  Forall (fun kc => to_key (fst kc) <> s) entries ->
  assoc s (fold_left (fun c entry => set_own (to_key (fst entry)) (snd entry) c)
                     entries acc) = assoc s acc.
Proof.
  intros H. revert acc. induction H as [|[k c] entries Hk _ IH]; intros acc;
    simpl; [reflexivity|].
  rewrite IH. now apply assoc_set_own_ne.
Qed.

Lemma components_fold s c (entries : JSMap value) acc :
  NoDup (map_keys entries) ->
  Forall (fun k => exists t, k = VStr t) (map_keys entries) ->
  In (VStr s, c) entries ->
  assoc s (fold_left (fun c entry => set_own (to_key (fst entry)) (snd entry) c)
                     entries acc) = Some c.
Proof.
  revert acc. induction entries as [|[k0 c0] entries IH]; intros acc Hnd Hstr Hin;
    [destruct Hin|].
  simpl in Hnd, Hstr. apply NoDup_cons in Hnd as [Hk0 Hnd].
  apply Forall_cons in Hstr as [[t ->] Hstr]. simpl.
  destruct Hin as [[= -> ->]|Hin].
  - rewrite components_fold_other; [apply assoc_set_own_eq|].
    clear IH. unfold map_keys in *. apply Forall_forall. intros [k c'] Hkc.
    rewrite Forall_forall in Hstr.
    destruct (Hstr k) as [t ->]; [apply list_elem_of_fmap; now exists (k, c')|].
    simpl. intros ->. apply Hk0. apply list_elem_of_fmap. now exists (VStr s, c').
  - now apply IH.
Qed.

(** X12: the object the [components] accessor returns is new, and holds
    under every registered name the component [getComponent] returns for it,
    when the names are strings; the registries are left as they are. *)
Theorem components_reads_as_getComponent (this : rid) (w : World) (n : RegistryNode) :
  regs w !! this = Some n ->
  NoDup (map_keys (_components n)) ->
  Forall (fun k => exists s, k = VStr s) (map_keys (_components n)) ->
  exists w',
    components this w = Ok (VRef (length (objs w))) w' /\
    regs w' = regs w /\ logged w' = logged w /\
    (exists o, objs w' = objs w ++ [o]) /\
    forall s c,
      getComponent this (VStr s) w = Ok c w -> c <> VUndefined ->
      get (objs w') (VRef (length (objs w))) s = Val c.
Proof.
  intros Hn Hnd Hstr. unfold components, getComponents, getComponent.
  unfold_M. rewrite Hn. eexists. split; [reflexivity|].
  split; [reflexivity|]. split; [reflexivity|]. split; [simpl; eauto|].
  intros s c [= <-] Hc. simpl objs. unfold get.
  rewrite lookup_app_r, Nat.sub_diag by lia. simpl.
  destruct (map_get (VStr s) (_components n)) as [c|] eqn:Hget; [|now destruct Hc].
  simpl. now rewrite (components_fold s c _ [] Hnd Hstr (map_get_In _ _ _ Hget)).
Qed.

Lemma components_reads_as_getComponent_witness :
  exists w',
    components 0 Sample.world2 = Ok (VRef 20) w' /\
    get (objs w') (VRef 20) "legacy" = Val Sample.legacy.
Proof.
  destruct (components_reads_as_getComponent 0 Sample.world2 _ eq_refl)
    as (w' & Hrun & _ & _ & _ & Hget).
  - repeat constructor; simpl; intros H;
      repeat (apply elem_of_cons in H as [H|H]; [discriminate H|]);
      now apply elem_of_nil in H.
  - repeat constructor; eauto.
  - exists w'. split; [exact Hrun|]. apply Hget; [reflexivity | discriminate].
Defined.

(** ** What every method keeps *)

Lemma __register_cases this component w :
  (exists e, __register this component w = Throw e w) \/
  (exists x, is_Some (regs w !! this) /\ name_of (objs w) component = Val x /\
             __register this component w = Ok tt (registered this x component w)).
Proof.
  destruct (name_of (objs w) component) as [x|e] eqn:Hname.
  - destruct (regs w !! this) as [n|] eqn:Hn.
    + rewrite (__register_run this component x w n Hn Hname).
      destruct (map_has x (_components n)) eqn:Hhas;
        [destruct (constructor_name (objs w) component) as [type|e] eqn:Htype|].
      * right. exists x. eauto.
      * left. exists e. unfold registered. now rewrite Hn, Hhas, Htype.
      * right. exists x. eauto.
    + left. unfold name_of in Hname. unfold __register, ComponentRegistry.isComponent.
      unfold_M. destruct (call_method (objs w) component "metadata"); [|discriminate].
      simpl in Hname. rewrite Hname, Hn. eauto.
  - left. unfold name_of in Hname. unfold __register. unfold_M.
    destruct (call_method (objs w) component "metadata"); simpl in Hname;
      [rewrite Hname|]; eauto.
Qed.

Lemma new_appends c h v h' : new_ c h = Val (v, h') -> exists os, h' = h ++ os.
Proof.
  unfold new_. destruct c as [type|type].
  - destruct (func_at h type) as [f|]; [|discriminate].
    destruct (fn_new f); [|discriminate]. intros [= _ <-]. eauto.
  - destruct type; intros [= _ <-]; eauto; exists []; now rewrite app_nil_r.
Qed.

(** A relation between worlds that holds of each write the class makes
    holds of each method. *)
Section every_method.
Context (D : Prop) (P : World -> World -> Prop) `{!PreOrder P}.
Hypothesis P_objs : forall w os, P w (with_objs (objs w ++ os) w).
Hypothesis P_logged : forall w entry, P w (with_logged (logged w ++ [entry]) w).
Hypothesis P_constructed : forall w parent,
  P w (with_regs (regs w ++ [{| _parent := parent; _collections := [];
                                _components := [] |}]) w).
Hypothesis P_registered : forall w this x c,
  is_Some (regs w !! this) -> name_of (objs w) c = Val x ->
  P w (registered this x c w).
Hypothesis P_collection : forall this k child,
  keeps D P (_collections_set this k child).

Lemma every_log entry : keeps D P (log entry).
Proof. intros w. apply P_logged. Qed.

Lemma every_register this c : keeps D P (__register this c).
Proof.
  intros w. destruct (__register_cases this c w) as [[e ->]|(x & Hthis & Hname & ->)];
    [reflexivity | now apply P_registered].
Qed.

Lemma every_factory this c : keeps D P (__componentFactory this c).
Proof.
  apply keeps_alloc; [apply _|]. intros h a h' Hnew w <-.
  destruct (new_appends _ _ _ _ Hnew) as [os ->]. apply P_objs.
Qed.

Lemma every_resolve node this filePath :
  keeps D P (__resolveComponents node this filePath).
Proof.
  unfold __resolveComponents. apply keeps_try_catch; [apply _ | |].
  - apply keeps_bind; [apply _ | apply keeps_eval, _ |]. intros exported.
    apply keeps_bind; [apply _ | apply keeps_eval, _ |]. intros [|].
    + apply keeps_ret, _.
    + apply keeps_bind; [apply _ | apply keeps_eval, _ |]. intros values.
      apply keeps_eval, _.
  - intros e. apply keeps_bind; [apply _ | apply every_log |].
    intros _. apply keeps_ret, _.
Qed.

Lemma every_fields this : keeps D P (fields this).
Proof. intros w. unfold fields. destruct (regs w !! this); reflexivity. Qed.

Lemma every_merge this other recursive : keeps D P (merge this other recursive).
Proof.
  unfold merge, getComponents.
  apply keeps_bind; [apply _ | |].
  { apply keeps_bind; [apply _ | apply every_fields | intros; apply keeps_ret, _]. }
  intros components.
  apply keeps_bind; [apply _ | | intros; apply keeps_ret, _].
  apply keeps_forEach; [apply _|]. intros c.
  apply keeps_bind; [apply _ | apply every_register |]. intros _.
  destruct recursive; [|apply keeps_ret, _].
  apply keeps_bind; [apply _ | apply every_fields |]. intros n.
  apply keeps_forEach; [apply _|]. intros t. apply every_register.
Qed.

Lemma every_getMetadata this collection : keeps D P (getMetadata this collection).
Proof.
  unfold getMetadata, getRegistry, getComponents.
  apply keeps_bind; [apply _ | |].
  { destruct (truthy collection); [|apply keeps_ret, _].
    apply keeps_bind; [apply _ | apply every_fields | intros; apply keeps_ret, _]. }
  intros [r|].
  - apply keeps_bind; [apply _ | |].
    { apply keeps_bind; [apply _ | apply every_fields | intros; apply keeps_ret, _]. }
    intros components. apply keeps_mapM; [apply _|]. intros c.
    apply keeps_bind; [apply _ | apply keeps_eval, _ |]. intros m.
    apply keeps_alloc; [apply _|]. intros h a h' [= _ <-] w <-. apply P_objs.
  - apply keeps_bind; [apply _ | apply every_log | intros; apply keeps_ret, _].
Qed.

Lemma every_components this : keeps D P (components this).
Proof.
  unfold components, getComponents.
  apply keeps_bind; [apply _ | |].
  { apply keeps_bind; [apply _ | apply every_fields | intros; apply keeps_ret, _]. }
  intros map_. apply keeps_alloc; [apply _|].
  intros h a h' [= _ <-] w <-. apply P_objs.
Qed.
End every_method.

Section every_scan.
Context (P : World -> World -> Prop) `{!PreOrder P}.
Hypothesis P_objs : forall w os, P w (with_objs (objs w ++ os) w).
Hypothesis P_logged : forall w entry, P w (with_logged (logged w ++ [entry]) w).
Hypothesis P_constructed : forall w parent,
  P w (with_regs (regs w ++ [{| _parent := parent; _collections := [];
                                _components := [] |}]) w).
Hypothesis P_registered : forall w this x c,
  is_Some (regs w !! this) -> name_of (objs w) c = Val x ->
  P w (registered this x c w).
Hypothesis P_collection : forall this k child,
  keeps True P (_collections_set this k child).
Variable node : Node.

Lemma every_scan depth :
  (forall this baseDir wc, keeps True P (__buildFromFs node depth this baseDir wc)) /\
  (forall this dir wc, keeps True P (__scanDir node depth this dir wc)) /\
  (forall this filePath wc, keeps True P (__digestPath node depth this filePath wc)) /\
  (forall this subdir, keeps True P (_addCollection node depth this subdir)) /\
  (forall parent componentDir cwd,
     keeps True P (assemble node depth parent componentDir cwd)).
Proof.
  induction depth as [|depth (IHbuild & IHscan & IHdigest & IHadd & IHassemble)];
    [repeat split; intros; intros w; exact I|].
  repeat split.
  - intros this baseDir wc. cbn [__buildFromFs].
    apply keeps_bind; [apply _ | | intros; apply keeps_ret, _].
    destruct (fs_existsSync node (path_resolve node baseDir));
      [|now apply every_log].
    apply keeps_bind; [apply _ | apply IHscan |]. intros cs.
    apply keeps_forEach; [apply _|]. intros c. now apply every_register.
  - intros this dir wc. cbn [__scanDir].
    apply keeps_bind; [apply _ | apply keeps_eval, _ |]. intros names.
    apply keeps_bind; [apply _ | apply keeps_eval, _ |]. intros sorted.
    apply keeps_bind; [apply _ | | intros; apply keeps_ret, _].
    apply keeps_mapM; [apply _|]. intros file. apply IHdigest.
  - intros this filePath wc. cbn [__digestPath].
    apply keeps_bind; [apply _ | apply keeps_eval, _ |]. intros stat.
    destruct (isDirectory stat && wc).
    + apply keeps_bind; [apply _ | apply IHadd | intros; apply keeps_ret, _].
    + destruct (isDirectory stat); [apply IHscan|].
      destruct (isFile stat); [|apply keeps_ret, _].
      apply keeps_bind; [apply _ | now apply every_resolve |]. intros refs.
      apply keeps_mapM; [apply _|]. intros c. now apply every_factory.
  - intros this subdir. cbn [_addCollection].
    apply keeps_bind; [apply _ | apply IHassemble |]. intros child.
    apply P_collection.
  - intros parent componentDir cwd. cbn [assemble].
    apply keeps_bind; [apply _ | | intros; apply IHbuild].
    intros w. apply P_constructed.
Qed.

Lemma every_create depth components cwd :
  keeps True P (create node depth components cwd).
Proof.
  unfold create. apply keeps_bind; [apply _ | intros w; apply P_constructed |].
  intros this. unfold __buildFromItems.
  apply keeps_bind; [apply _ | |].
  - apply keeps_mapM; [apply _|]. intros item.
    apply keeps_bind; [apply _ | apply keeps_eval, _ |]. intros [|].
    + apply keeps_bind; [apply _ | now apply every_factory |].
      intros c. apply keeps_ret, _.
    + apply keeps_bind; [apply _ | apply keeps_eval, _ |]. intros ty.
      destruct (String.eqb ty "object").
      * apply keeps_bind; [apply _ | apply keeps_eval, _ |]. intros values.
        apply keeps_bind; [apply _ | apply keeps_eval, _ |]. intros refs.
        apply keeps_bind; [apply _ | |].
        -- apply keeps_mapM; [apply _|]. intros c. now apply every_factory.
        -- intros cs. apply keeps_ret, _.
      * destruct (String.eqb ty "string"); [|apply keeps_ret, _].
        destruct item; try apply keeps_ret, _.
        apply keeps_bind; [apply _ | apply every_scan |].
        intros cs. apply keeps_ret, _.
  - intros results.
    apply keeps_bind; [apply _ | | intros _; apply keeps_ret, _].
    apply keeps_forEach; [apply _|]. intros c. now apply every_register.
Qed.
End every_scan.

Lemma map_keys_set {V} (k : value) (v : V) (m : JSMap V) :
  map_keys (map_set k v m) = if map_has k m then map_keys m else map_keys m ++ [k].
Proof.
  unfold map_has. induction m as [|[k' v'] m IH]; simpl; [reflexivity|].
  destruct (decide (k' = k)) as [->|Hne]; simpl; [reflexivity|].
  rewrite IH. now destruct (map_get k m).
Qed.

Lemma registered_lookup this x c w t n :
  regs w !! t = Some n ->
  exists n', regs (registered this x c w) !! t = Some n' /\
    _parent n' = _parent n /\ _collections n' = _collections n /\
    (_components n' = _components n \/
     t = this /\ map_has x (_components n) = false /\
     _components n' = _components n ++ [(x, c)]).
Proof.
  intros Hn. unfold registered.
  destruct (regs w !! this) as [nthis|] eqn:Hthis; [|exists n; auto].
  destruct (map_has x (_components nthis)) eqn:Hhas; simpl;
    [destruct (constructor_name (objs w) c); exists n; auto|].
  destruct (decide (t = this)) as [->|Hne].
  - rewrite Hn in Hthis. injection Hthis as <-.
    rewrite list_lookup_insert_eq by (eapply lookup_lt_Some; eauto).
    eexists. split; [reflexivity|]. simpl. auto 6.
  - rewrite list_lookup_insert_ne by congruence. exists n. auto.
Qed.

Lemma _collections_set_lookup this k child w t n :
  regs w !! t = Some n ->
  exists n', regs (with_regs
                     (alter (fun n => {| _parent := _parent n;
                                         _collections := map_set k child (_collections n);
                                         _components := _components n |})
                            this (regs w)) w) !! t = Some n' /\
    _parent n' = _parent n /\ _components n' = _components n /\
    (_collections n' = _collections n \/
     t = this /\ _collections n' = map_set k child (_collections n)).
Proof.
  intros Hn. simpl. destruct (decide (t = this)) as [->|Hne].
  - rewrite list_lookup_alter_eq, Hn. simpl. eexists. split; [reflexivity|].
    simpl. auto.
  - rewrite list_lookup_alter_ne by congruence. exists n. auto.
Qed.

#[local] Instance never_removes_preorder : PreOrder never_removes.
Proof.
  split.
  - intros w. split; [reflexivity|]. split; [reflexivity|].
    intros t n Hn. exists n. auto.
  - intros w1 w2 w3 (Ho1 & Hl1 & H1) (Ho2 & Hl2 & H2).
    split; [now transitivity (objs w2)|]. split; [now transitivity (logged w2)|].
    intros t n Hn. destruct (H1 t n Hn) as (n1 & Hn1 & Hp1 & Hc1 & Hk1).
    destruct (H2 t n1 Hn1) as (n2 & Hn2 & Hp2 & Hc2 & Hk2).
    exists n2. split; [assumption|]. split; [congruence|]. split; auto.
Qed.

Section never_removes.
Variable node : Node.

Lemma never_removes_objs w os : never_removes w (with_objs (objs w ++ os) w).
Proof.
  split; [now exists os|]. split; [reflexivity|].
  intros t n Hn. exists n. auto.
Qed.

Lemma never_removes_logged w entry :
  never_removes w (with_logged (logged w ++ [entry]) w).
Proof.
  split; [reflexivity|]. split; [now exists [entry]|].
  intros t n Hn. exists n. auto.
Qed.

Lemma never_removes_constructed w parent :
  never_removes w
    (with_regs (regs w ++ [{| _parent := parent; _collections := [];
                              _components := [] |}]) w).
Proof.
  split; [reflexivity|]. split; [reflexivity|].
  intros t n Hn. exists n. split; [now apply lookup_app_l_Some | auto].
Qed.

Lemma never_removes_registered w this x c :
  never_removes w (registered this x c w).
Proof.
  split; [|split].
  - unfold registered. destruct (regs w !! this) as [n|]; [|reflexivity].
    destruct (map_has x (_components n)); [|reflexivity].
    destruct (constructor_name (objs w) c); reflexivity.
  - unfold registered. destruct (regs w !! this) as [n|]; [|reflexivity].
    destruct (map_has x (_components n)); [|reflexivity].
    destruct (constructor_name (objs w) c); [now eexists | reflexivity].
  - intros t n Hn.
    destruct (registered_lookup this x c w t n Hn)
      as (n' & Hn' & Hp & Hcol & [Hcomp|(_ & _ & Hcomp)]);
      exists n'; (split; [assumption|]); (split; [assumption|]);
      rewrite Hcomp, Hcol; (split; [|auto]).
    + auto.
    + intros k c' Hk. now rewrite map_get_app, Hk.
Qed.

Lemma never_removes_collection D this k child :
  keeps D never_removes (_collections_set this k child).
Proof.
  intros w. unfold _collections_set. split; [reflexivity|]. split; [reflexivity|].
  intros t n Hn.
  destruct (_collections_set_lookup this k child w t n Hn)
    as (n' & Hn' & Hp & Hcomp & [Hcol|(_ & Hcol)]);
    exists n'; (split; [assumption|]); (split; [assumption|]);
    rewrite Hcomp, Hcol; (split; [auto|]); [auto|].
  intros k0 Hk0. rewrite map_keys_set.
  destruct (map_has k (_collections n)); [assumption|].
  apply in_or_app. now left.
Qed.

(** X13: nothing is ever removed.  Whatever a method does, and whether it
    returns or throws, the objects of the store and the entries of the log
    stay where they are, every registry stays, with its parent, every name
    of a component stays bound to the component it was bound to, and every
    name of a collection stays a name of a collection. *)
Theorem nothing_is_removed (depth : nat) :
  (forall this c, keeps False never_removes (__register this c)) /\
  (forall this other recursive,
     keeps False never_removes (merge this other recursive)) /\
  (forall this collection, keeps False never_removes (getMetadata this collection)) /\
  (forall this, keeps False never_removes (components this)) /\
  (forall parent componentDir cwd,
     keeps True never_removes (assemble node depth parent componentDir cwd)) /\
  (forall items cwd, keeps True never_removes (create node depth items cwd)).
Proof.
  split; [|split; [|split; [|split; [|split]]]]; intros.
  - apply every_register; [apply _|]. intros; apply never_removes_registered.
  - apply every_merge; [apply _|]. intros; apply never_removes_registered.
  - apply every_getMetadata;
      [apply _ | apply never_removes_objs | apply never_removes_logged].
  - apply every_components; [apply _ | apply never_removes_objs].
  - apply every_scan;
      [apply _ | apply never_removes_objs | apply never_removes_logged
       | apply never_removes_constructed
       | intros; apply never_removes_registered
       | apply never_removes_collection].
  - apply every_create;
      [apply _ | apply never_removes_objs | apply never_removes_logged
       | apply never_removes_constructed
       | intros; apply never_removes_registered
       | apply never_removes_collection].
Qed.
End never_removes.

#[local] Instance unique_names_kept_preorder : PreOrder unique_names_kept.
Proof.
  split.
  - intros w H. exact H.
  - intros w1 w2 w3 H12 H23 H. apply H23, H12, H.
Qed.

Section unique_names.
Variable node : Node.

Lemma unique_names_same_regs w w' :
  regs w' = regs w -> unique_names_kept w w'.
Proof. intros Heq H t n Hn. apply (H t n). now rewrite <- Heq. Qed.

Lemma unique_names_constructed w parent :
  unique_names_kept w
    (with_regs (regs w ++ [{| _parent := parent; _collections := [];
                              _components := [] |}]) w).
Proof.
  intros H t n Hn. simpl in Hn.
  destruct (decide (t < length (regs w))) as [Hlt|Hge].
  - rewrite lookup_app_l in Hn by exact Hlt. now apply (H t n).
  - rewrite lookup_app_r in Hn by lia.
    destruct (t - length (regs w)) as [|i]; [|destruct i; discriminate Hn].
    injection Hn as <-. simpl. split; constructor.
Qed.

Lemma unique_names_registered w this x c :
  unique_names_kept w (registered this x c w).
Proof.
  intros H t n' Hn'.
  destruct (decide (t < length (regs w))) as [Hlt|Hge].
  - destruct (lookup_lt_is_Some_2 (regs w) t Hlt) as [n Hn].
    destruct (H t n Hn) as [Hcomp Hcol].
    destruct (registered_lookup this x c w t n Hn)
      as (n1 & Hn1 & _ & Hcol1 & [Hcomp1|(_ & Hfree & Hcomp1)]);
      rewrite Hn' in Hn1; injection Hn1 as <-; rewrite Hcomp1, Hcol1;
      (split; [|assumption]); [assumption|].
    unfold map_keys. rewrite map_app. simpl.
    apply NoDup_app. split; [exact Hcomp|]. split; [|apply NoDup_singleton].
    intros k Hk Hx. apply list_elem_of_singleton in Hx. subst k.
    apply map_has_false in Hfree.
    apply list_elem_of_In, (map_get_keys x (_components n)) in Hk as [? Hk].
    congruence.
  - exfalso. apply Hge. apply lookup_lt_Some in Hn'. revert Hn'.
    unfold registered. destruct (regs w !! this) as [n|]; [|auto].
    destruct (map_has x (_components n)); simpl;
      [destruct (constructor_name (objs w) c); auto|].
    now rewrite length_insert.
Qed.

Lemma unique_names_collection D this k child :
  keeps D unique_names_kept (_collections_set this k child).
Proof.
  intros w. unfold _collections_set. intros H t n' Hn'.
  destruct (decide (t < length (regs w))) as [Hlt|Hge].
  - destruct (lookup_lt_is_Some_2 (regs w) t Hlt) as [n Hn].
    destruct (H t n Hn) as [Hcomp Hcol].
    destruct (_collections_set_lookup this k child w t n Hn)
      as (n1 & Hn1 & _ & Hcomp1 & [Hcol1|(_ & Hcol1)]);
      rewrite Hn' in Hn1; injection Hn1 as <-; rewrite Hcomp1, Hcol1;
      (split; [assumption|]); [assumption|].
    rewrite map_keys_set. destruct (map_has k (_collections n)) eqn:Hhas;
      [assumption|].
    apply NoDup_app. split; [exact Hcol|]. split; [|apply NoDup_singleton].
    intros k0 Hk Hx. apply list_elem_of_singleton in Hx. subst k0.
    apply map_has_false in Hhas.
    apply list_elem_of_In, (map_get_keys k (_collections n)) in Hk as [? Hk].
    congruence.
  - exfalso. apply Hge. apply lookup_lt_Some in Hn'. simpl in Hn'.
    now rewrite length_alter in Hn'.
Qed.

(** X14: the names stay distinct.  If in every registry the names of the
    components are distinct and the names of the collections are distinct,
    they are so after every method, whether it returns or throws. *)
Theorem names_stay_unique (depth : nat) :
  (forall this c, keeps False unique_names_kept (__register this c)) /\
  (forall this other recursive,
     keeps False unique_names_kept (merge this other recursive)) /\
  (forall parent componentDir cwd,
     keeps True unique_names_kept (assemble node depth parent componentDir cwd)) /\
  (forall items cwd, keeps True unique_names_kept (create node depth items cwd)).
Proof.
  split; [|split; [|split]]; intros.
  - apply every_register; [apply _|]. intros; apply unique_names_registered.
  - apply every_merge; [apply _|]. intros; apply unique_names_registered.
  - apply every_scan;
      [apply _ | intros; now apply unique_names_same_regs
       | intros; now apply unique_names_same_regs
       | apply unique_names_constructed
       | intros; apply unique_names_registered
       | apply unique_names_collection].
  - apply every_create;
      [apply _ | intros; now apply unique_names_same_regs
       | intros; now apply unique_names_same_regs
       | apply unique_names_constructed
       | intros; apply unique_names_registered
       | apply unique_names_collection].
Qed.
End unique_names.

Lemma names_stay_unique_witness :
  exists w',
    assemble Sample.node 11 None "components" "/srv" Sample.world = Ok 0 w' /\
    unique_names w'.
Proof.
  pose proof (proj1 (proj2 (proj2 (names_stay_unique Sample.node 11)))
                None "components" "/srv" Sample.world) as H.
  destruct (assemble Sample.node 11 None "components" "/srv" Sample.world)
    as [r w'| |] eqn:E; vm_compute in E; [|discriminate E..].
  injection E as <- <-. eexists. split; [reflexivity|].
  apply H. intros t n Hn. destruct t; discriminate Hn.
Defined.

(** ** Registries a construction leaves alone *)

#[local] Instance untouched_preorder : PreOrder untouched.
Proof.
  split.
  - intros w. split; [lia | reflexivity].
  - intros w1 w2 w3 [Hl1 H1] [Hl2 H2]. split; [lia|].
    intros l Hl. rewrite H2 by lia. now apply H1.
Qed.

#[local] Instance touches_only_preorder this : PreOrder (touches_only this).
Proof.
  split.
  - intros w _. split; [lia | reflexivity].
  - intros w1 w2 w3 H12 H23 Hthis. destruct (H12 Hthis) as [Hl1 H1].
    destruct (H23 ltac:(lia)) as [Hl2 H2]. split; [lia|].
    intros l Hl Hne. rewrite H2 by (lia || assumption). now apply H1.
Qed.

Lemma untouched_touches_only this w w' : untouched w w' -> touches_only this w w'.
Proof. intros [Hl H] _. split; [lia|]. intros l Hlt _. now apply H. Qed.

Lemma untouched_same_regs w w' : regs w' = regs w -> untouched w w'.
Proof. intros H. unfold untouched. rewrite H. split; [lia | reflexivity]. Qed.

Section untouched.
Variable node : Node.

Lemma touches_only_register D this c :
  keeps D (touches_only this) (__register this c).
Proof.
  intros w. destruct (__register_cases this c w) as [[e ->]|(x & Hthis & _ & ->)];
    [reflexivity|].
  intros _. unfold registered. destruct Hthis as [n Hn]. rewrite Hn.
  destruct (map_has x (_components n)); simpl;
    [destruct (constructor_name (objs w) c); split; (lia || reflexivity)|].
  rewrite length_insert. split; [lia|]. intros l _ Hne.
  now rewrite list_lookup_insert_ne by congruence.
Qed.

Lemma touches_only_collection D this k child :
  keeps D (touches_only this) (_collections_set this k child).
Proof.
  intros w _. unfold _collections_set. simpl. rewrite length_alter.
  split; [lia|]. intros l _ Hne. now rewrite list_lookup_alter_ne by congruence.
Qed.

Lemma same_regs_resolve this filePath w :
  match __resolveComponents node this filePath w with
  | Ok _ w' | Throw _ w' => regs w' = regs w
  | OutOfDepth => True
  end.
Proof.
  unfold __resolveComponents. unfold_M.
  destruct (require node filePath) as [exported|e]; [|reflexivity].
  destruct (registry.isComponent (objs w) exported) as [[|]|e]; try reflexivity.
  destruct (Object_values (objs w) exported) as [values|e]; [|reflexivity].
  destruct (filter_res (registry.isComponent (objs w)) values); reflexivity.
Qed.

Lemma scan_touches_only depth :
  (forall this baseDir wc,
     keeps True (touches_only this) (__buildFromFs node depth this baseDir wc)) /\
  (forall this dir wc,
     keeps True (touches_only this) (__scanDir node depth this dir wc)) /\
  (forall this filePath wc,
     keeps True (touches_only this) (__digestPath node depth this filePath wc)) /\
  (forall this subdir,
     keeps True (touches_only this) (_addCollection node depth this subdir)) /\
  (forall parent componentDir cwd,
     keeps True untouched (assemble node depth parent componentDir cwd)).
Proof.
  induction depth as [|depth (IHbuild & IHscan & IHdigest & IHadd & IHassemble)];
    [repeat split; intros; intros w; exact I|].
  repeat split.
  - intros this baseDir wc. cbn [__buildFromFs].
    apply keeps_bind; [apply _ | | intros; apply keeps_ret, _].
    destruct (fs_existsSync node (path_resolve node baseDir)).
    + apply keeps_bind; [apply _ | apply IHscan |]. intros cs.
      apply keeps_forEach; [apply _|]. intros c. apply touches_only_register.
    + intros w. now apply untouched_touches_only, untouched_same_regs.
  - intros this dir wc. cbn [__scanDir].
    apply keeps_bind; [apply _ | apply keeps_eval, _ |]. intros names.
    apply keeps_bind; [apply _ | apply keeps_eval, _ |]. intros sorted.
    apply keeps_bind; [apply _ | | intros; apply keeps_ret, _].
    apply keeps_mapM; [apply _|]. intros file. apply IHdigest.
  - intros this filePath wc. cbn [__digestPath].
    apply keeps_bind; [apply _ | apply keeps_eval, _ |]. intros stat.
    destruct (isDirectory stat && wc).
    + apply keeps_bind; [apply _ | apply IHadd | intros; apply keeps_ret, _].
    + destruct (isDirectory stat); [apply IHscan|].
      destruct (isFile stat); [|apply keeps_ret, _].
      apply keeps_bind; [apply _ | |].
      * intros w. pose proof (same_regs_resolve this
                                (if fs_existsSync node filePath then filePath
                                 else String.append filePath ".js") w) as H.
        destruct (__resolveComponents _ _ _ w); auto;
          now apply untouched_touches_only, untouched_same_regs.
      * intros refs. apply keeps_mapM; [apply _|]. intros c.
        apply keeps_alloc; [apply _|]. intros h a h' _ w _.
        now apply untouched_touches_only, untouched_same_regs.
  - intros this subdir. cbn [_addCollection].
    apply keeps_bind; [apply _ | | intros; apply touches_only_collection].
    apply (keeps_impl _ untouched); [apply untouched_touches_only | apply IHassemble].
  - intros parent componentDir cwd. cbn [assemble].
    intros w. unfold bind. rewrite constructor_appends.
    match goal with |- context [__buildFromFs node depth ?t ?b ?c ?w0] =>
      pose proof (IHbuild t b c w0) as H;
      destruct (__buildFromFs node depth t b c w0) as [r w'|e w'|]; [| |exact I]
    end.
    all: destruct H as [Hlen H]; [simpl; rewrite length_app; simpl; lia|].
    all: simpl in Hlen, H; rewrite length_app in Hlen, H; simpl in Hlen, H.
    all: split; [lia|]; intros l Hl; rewrite H by lia; now apply lookup_app_l.
Qed.

(** X15: [assemble] and [create] write to no registry that was there
    before the call, the parent given to [assemble] included: every such
    registry is afterwards as it was, whether the call returns or throws. *)
Theorem construction_leaves_registries_alone (depth : nat) :
  (forall parent componentDir cwd,
     keeps True untouched (assemble node depth parent componentDir cwd)) /\
  (forall items cwd, keeps True untouched (create node depth items cwd)).
Proof.
  split; [apply scan_touches_only|].
  intros items cwd w. unfold create, bind at 1. rewrite constructor_appends.
  match goal with |- context [__buildFromItems node depth ?t items cwd ?w0] =>
    assert (H : keeps True (touches_only t) (__buildFromItems node depth t items cwd));
    [|specialize (H w0);
      destruct (__buildFromItems node depth t items cwd w0) as [r w'|e w'|];
      [| |exact I]]
  end.
  - unfold __buildFromItems.
    apply keeps_bind; [apply _ | |].
    + apply keeps_mapM; [apply _|]. intros item.
      apply keeps_bind; [apply _ | apply keeps_eval, _ |]. intros [|].
      * apply keeps_bind; [apply _ | | intros; apply keeps_ret, _].
        apply keeps_alloc; [apply _|]. intros h a h' _ w1 _.
        now apply untouched_touches_only, untouched_same_regs.
      * apply keeps_bind; [apply _ | apply keeps_eval, _ |]. intros ty.
        destruct (String.eqb ty "object").
        -- apply keeps_bind; [apply _ | apply keeps_eval, _ |]. intros values.
           apply keeps_bind; [apply _ | apply keeps_eval, _ |]. intros refs.
           apply keeps_bind; [apply _ | | intros; apply keeps_ret, _].
           apply keeps_mapM; [apply _|]. intros c.
           apply keeps_alloc; [apply _|]. intros h a h' _ w1 _.
           now apply untouched_touches_only, untouched_same_regs.
        -- destruct (String.eqb ty "string"); [|apply keeps_ret, _].
           destruct item; try apply keeps_ret, _.
           apply keeps_bind; [apply _ | apply scan_touches_only |].
           intros cs. apply keeps_ret, _.
    + intros results.
      apply keeps_bind; [apply _ | | intros _; apply keeps_ret, _].
      apply keeps_forEach; [apply _|]. intros c. apply touches_only_register.
  - destruct H as [Hlen H]; [simpl; rewrite length_app; simpl; lia|].
    simpl in Hlen, H. rewrite length_app in Hlen, H. simpl in Hlen, H.
    split; [lia|]. intros l Hl. rewrite H by lia. now apply lookup_app_l.
  - destruct H as [Hlen H]; [simpl; rewrite length_app; simpl; lia|].
    simpl in Hlen, H. rewrite length_app in Hlen, H. simpl in Hlen, H.
    split; [lia|]. intros l Hl. rewrite H by lia. now apply lookup_app_l.
Qed.
End untouched.

(** ** Merging twice *)

#[local] Instance well_appended_preorder : PreOrder well_appended.
Proof.
  split.
  - intros w. split; [reflexivity|]. intros t nt Hnt. exists nt, [].
    rewrite app_nil_r. auto.
  - intros w1 w2 w3 [Ho1 H1] [Ho2 H2]. split; [congruence|].
    intros t nt Hnt. destruct (H1 t nt Hnt) as (nt1 & e1 & Hnt1 & Hc1 & Hk1 & Hn1).
    destruct (H2 t nt1 Hnt1) as (nt2 & e2 & Hnt2 & Hc2 & Hk2 & Hn2).
    exists nt2, (e1 ++ e2). split; [assumption|]. split; [congruence|].
    split; [rewrite Hk2, Hk1; now rewrite app_assoc|].
    apply Forall_app. split; [assumption|].
    eapply Forall_impl; [exact Hn2|]. intros kc. simpl.
    rewrite Hk1, map_get_app. now destruct (map_get (fst kc) (_components nt)).
Qed.

Lemma well_appended_registered w this x c :
  is_Some (regs w !! this) -> name_of (objs w) c = Val x ->
  well_appended w (registered this x c w).
Proof.
  intros _ Hname. split.
  - unfold registered. destruct (regs w !! this) as [n|]; [|reflexivity].
    now destruct (map_has x (_components n)), (constructor_name (objs w) c).
  - intros t nt Hnt.
    destruct (registered_lookup this x c w t nt Hnt)
      as (n' & Hn' & _ & Hcol & [Hcomp|(_ & Hfree & Hcomp)]).
    + exists n', []. rewrite app_nil_r. auto.
    + exists n', [(x, c)]. repeat split; auto.
      constructor; [|constructor]. now apply map_has_false.
Qed.

Lemma register_duplicate t c x type w nt :
  regs w !! t = Some nt -> name_of (objs w) c = Val x ->
  constructor_name (objs w) c = Val type ->
  map_has x (_components nt) = true ->
  __register t c w
  = Ok tt (with_logged (logged w ++ [Warn_duplicate_component x type]) w).
Proof.
  intros Hnt Hname Htype Hhas.
  rewrite (__register_run t c x w nt Hnt Hname), Hhas, Htype.
  unfold registered. now rewrite Hnt, Hhas, Htype.
Qed.

Lemma register_each_duplicate c x type (ts : list rid) w :
  name_of (objs w) c = Val x ->
  constructor_name (objs w) c = Val type ->
  (forall t, In t ts -> exists nt, regs w !! t = Some nt /\
                                   map_has x (_components nt) = true) ->
  exists w', forEach (fun t => __register t c) ts w = Ok tt w' /\
             regs w' = regs w /\ objs w' = objs w.
Proof.
  revert w. induction ts as [|t ts IH]; intros w Hname Htype Hts;
    [exists w; auto|].
  destruct (Hts t (or_introl eq_refl)) as (nt & Hnt & Hhas).
  destruct (IH (with_logged (logged w ++ [Warn_duplicate_component x type]) w))
    as (w' & Hrun & Hregs & Hobjs); [exact Hname | exact Htype | |].
  { intros t' Ht'. apply Hts. now right. }
  exists w'. split; [|auto]. simpl. unfold bind.
  now rewrite (register_duplicate t c x type w nt Hnt Hname Htype Hhas).
Qed.

Lemma merge_loop_duplicates this recursive n (es : JSMap value) w :
  regs w !! this = Some n ->
  Forall (fun kc => name_of (objs w) (snd kc) = Val (fst kc)) es ->
  Forall (fun kc => typed (objs w) (snd kc)) es ->
  covered (merge_targets this recursive n) es w ->
  exists w', forEach (merge_body this recursive) (map_values es) w = Ok tt w' /\
             regs w' = regs w /\ objs w' = objs w.
Proof.
  revert w. induction es as [|[x c] es IH]; intros w Hn Hes Hty Hcov;
    [exists w; auto|].
  apply Forall_cons in Hes as [Hname Hes]. simpl in Hname.
  apply Forall_cons in Hty as [[type Htype] Hty]. simpl in Htype.
  assert (Hstep : exists w1, merge_body this recursive c w = Ok tt w1 /\
                             regs w1 = regs w /\ objs w1 = objs w).
  { destruct (register_each_duplicate c x type (merge_targets this recursive n) w
                Hname Htype)
      as (w1 & Hrun & Hregs & Hobjs).
    - intros t Ht. destruct (Hcov t Ht) as (nt & Hnt & Hall).
      exists nt. split; [assumption|]. apply (Hall (x, c)). now left.
    - exists w1. split; [|auto]. unfold merge_body. unfold merge_targets in Hrun.
      simpl in Hrun. unfold bind in Hrun. unfold bind at 1.
      destruct (__register this c w) as [[] w0|e w0|] eqn:Hreg; try discriminate Hrun.
      destruct recursive; [|exact Hrun].
      unfold bind, fields.
      assert (Hn0 : regs w0 !! this = Some n).
      { destruct (Hcov this (or_introl eq_refl)) as (nt & Hnt & Hall).
        rewrite Hn in Hnt. injection Hnt as <-.
        rewrite (register_duplicate this c x type w n Hn Hname Htype
                   (Hall (x, c) (or_introl eq_refl)))
          in Hreg.
        injection Hreg as <-. exact Hn. }
      now rewrite Hn0. }
  destruct Hstep as (w1 & Hrun1 & Hregs1 & Hobjs1).
  destruct (IH w1) as (w' & Hrun & Hregs & Hobjs).
  - now rewrite Hregs1.
  - now rewrite Hobjs1.
  - now rewrite Hobjs1.
  - intros t Ht. destruct (Hcov t Ht) as (nt & Hnt & Hall).
    exists nt. rewrite Hregs1. split; [assumption|].
    intros kc Hkc. apply Hall. now right.
  - exists w'. split; [|split; congruence].
    simpl. unfold bind at 1. now rewrite Hrun1.
Qed.

(** X16: merging the same registry a second time changes nothing but the
    log, when its components are typed, so that the warnings can name them:
    the second [merge] returns, and the registries and the store are as the
    first [merge] left them, every registration of the second being
    rejected as a duplicate. *)
Theorem merge_twice (this other : rid) (recursive : bool) (w : World)
    (n nb : RegistryNode) :
  regs w !! this = Some n ->
  regs w !! other = Some nb ->
  Forall (fun kc => name_of (objs w) (snd kc) = Val (fst kc)) (_components nb) ->
  Forall (fun kc => typed (objs w) (snd kc)) (_components nb) ->
  Forall (fun child => is_Some (regs w !! child)) (map_values (_collections n)) ->
  exists w1 w2,
    merge this other recursive w = Ok this w1 /\
    merge this other recursive w1 = Ok this w2 /\
    regs w2 = regs w1 /\ objs w2 = objs w1.
Proof.
  intros Hn Hnb Hnames Htyped Hchildren.
  destruct (merge_loop this recursive n (_components nb) w Hn Hnames Htyped Hchildren)
    as (w1 & Hrun & Hm).
  assert (Hmerge : merge this other recursive w = Ok this w1).
  { unfold merge, getComponents. unfold bind at 1 2. unfold fields. rewrite Hnb.
    unfold ret at 1.
    change (bind (forEach (merge_body this recursive) (map_values (_components nb)))
                 (fun _ => ret this) w = Ok this w1).
    unfold bind at 1. now rewrite Hrun. }
  pose proof (every_merge False well_appended well_appended_registered
                this other recursive w) as Happ.
  rewrite Hmerge in Happ. destruct Happ as [Hobjs Happ].
  destruct (Happ other nb Hnb) as (nb1 & extra & Hnb1 & _ & Hcomps1 & Hextra).
  destruct Hm as [_ Hm].
  destruct (Hm this n Hn) as (n1 & Hn1 & _ & Hcols1 & _).
  assert (Hkeys : forall kc, In kc (_components nb1) ->
                             is_Some (map_get (fst kc) (_components nb))).
  { intros [k c] Hkc. simpl.
    assert (Hsome : is_Some (map_get k (_components nb1))).
    { apply map_get_keys. unfold map_keys. apply in_map_iff. now exists (k, c). }
    destruct (Hm other nb Hnb) as (nb1' & Hnb1' & _ & _ & Hget).
    rewrite Hnb1 in Hnb1'. injection Hnb1' as <-.
    rewrite Hget in Hsome.
    destruct (bool_decide _); [|exact Hsome].
    rewrite map_get_app in Hsome.
    destruct (map_get k (_components nb)); [eauto | exact Hsome]. }
  assert (Hsame : _components nb1 = _components nb).
  { destruct extra as [|kc extra]; [now rewrite app_nil_r in Hcomps1|].
    apply Forall_cons in Hextra as [Hfresh _].
    destruct (Hkeys kc) as [c Hc]; [|congruence].
    rewrite Hcomps1. apply in_or_app. right. now left. }
  destruct (merge_loop_duplicates this recursive n1 (_components nb1) w1 Hn1)
    as (w2 & Hrun2 & Hregs2 & Hobjs2).
  - now rewrite Hsame, Hobjs.
  - now rewrite Hsame, Hobjs.
  - unfold merge_targets. rewrite Hcols1. intros t Ht.
    assert (Hvalid : is_Some (regs w !! t)).
    { destruct Ht as [<-|Ht]; [eauto|]. destruct recursive; [|destruct Ht].
      rewrite Forall_forall in Hchildren. apply Hchildren.
      now apply list_elem_of_In. }
    destruct Hvalid as [nt Hnt].
    destruct (Hm t nt Hnt) as (nt1 & Hnt1 & _ & _ & Hget).
    exists nt1. split; [assumption|]. intros kc Hkc.
    apply map_has_get. rewrite Hget.
    rewrite bool_decide_eq_true_2
      by (apply list_elem_of_In; exact Ht).
    rewrite map_get_app. destruct (map_get (fst kc) (_components nt)); [eauto|].
    now apply Hkeys.
  - exists w1, w2. split; [exact Hmerge|]. split; [|auto].
    unfold merge, getComponents. unfold bind at 1 2. unfold fields. rewrite Hnb1.
    unfold ret at 1.
    change (bind (forEach (merge_body this recursive) (map_values (_components nb1)))
                 (fun _ => ret this) w1 = Ok this w2).
    unfold bind at 1. now rewrite Hrun2.
Qed.

Lemma merge_twice_witness :
  exists w1 w2,
    merge 0 1 true Sample.world3 = Ok 0 w1 /\
    merge 0 1 true w1 = Ok 0 w2 /\
    regs w2 = regs w1 /\ objs w2 = objs w1.
Proof.
  apply (merge_twice 0 1 true Sample.world3 _ _ eq_refl eq_refl).
  - repeat constructor.
  - repeat constructor; eexists; reflexivity.
  - repeat constructor; simpl; eauto.
Defined.

(** ** Paths *)

(** X17: [fullPath] applied to its own result returns it, whenever the
    join of the base and the path contains the base. *)
Theorem fullPath_idempotent (node : Node) (cwd dirname : string) :
  indexOf (path_join node cwd dirname) cwd <> (-1)%Z ->
  fullPath node cwd (fullPath node cwd dirname) = fullPath node cwd dirname.
Proof.
  intros Hjoin.
  destruct (Z.eq_dec (indexOf dirname cwd) (-1)%Z) as [Hout|Hin].
  - rewrite (fullPath_joins node cwd dirname Hout).
    now apply fullPath_contains.
  - rewrite (fullPath_contains node cwd dirname Hin).
    now apply fullPath_contains.
Qed.

Lemma fullPath_idempotent_witness :
  fullPath Sample.node "/srv" (fullPath Sample.node "/srv" "components")
  = "/srv/components".
Proof.
  rewrite (fullPath_idempotent Sample.node "/srv" "components"); [reflexivity|].
  vm_compute. discriminate.
Defined.

(** ** The invariants on the sample *)

Lemma construction_leaves_registries_alone_witness :
  exists w',
    assemble Sample.node 11 (Some 0) "components" "/srv" Sample.world3 = Ok 4 w' /\
    forall l, l < 4 -> regs w' !! l = regs Sample.world3 !! l.
Proof.
  pose proof (proj1 (construction_leaves_registries_alone Sample.node 11)
                (Some 0) "components" "/srv" Sample.world3) as H.
  destruct (assemble Sample.node 11 (Some 0) "components" "/srv" Sample.world3)
    as [r w'| |] eqn:E; vm_compute in E; [|discriminate E..].
  injection E as <- <-. eexists. split; [reflexivity|]. exact (proj2 H).
Defined.

Lemma nothing_is_removed_witness :
  exists w',
    merge 0 1 true Sample.world3 = Ok 0 w' /\
    never_removes Sample.world3 w'.
Proof.
  pose proof (proj1 (proj2 (nothing_is_removed Sample.node 0)) 0 1 true
                Sample.world3) as H.
  destruct (merge 0 1 true Sample.world3) as [r w'| |] eqn:E; vm_compute in E;
    [|discriminate E..].
  injection E as <- <-. eexists. split; [reflexivity|]. exact H.
Defined.
